(** * MoveNet pose decoding and the skip/refresh cache (src/body/movenet.ts)

    A shallow embedding of [createBox], [parseSinglePose], [parseMultiPose]
    and [predict], with the module-level variables ([model], [cachedBoxes],
    [skipped], [keypoints]) threaded as an explicit state.

    JavaScript numbers are modelled as the rationals extended with
    [Infinity], [-Infinity] and [NaN]: a finite double is a rational, the
    special values follow IEEE 754, and [undefined] read in a numeric
    context is [NaN].  The rounding error of double arithmetic and the sign
    of zero are not modelled. *)

From Stdlib Require Import String Ascii.
From Stdlib Require Import QArith Qround ZArith List Bool Lia Lqa.
From Stdlib Require Import Permutation Sorted.
From Stdlib Require DecimalString.
Import ListNotations.

Set Implicit Arguments.
Open Scope Q_scope.

(** ** Numbers *)

Inductive num : Type :=
| Fin (q : Q)
| PInf
| NInf
| NaN.

Declare Scope num_scope.
Delimit Scope num_scope with num.
Bind Scope num_scope with num.

Definition Qlt_bool (x y : Q) : bool :=
  match x ?= y with Lt => true | _ => false end.

(** [a > b]; any comparison with [NaN] is false. *)
Definition ngt (a b : num) : bool :=
  match a, b with
  | NaN, _ | _, NaN => false
  | Fin x, Fin y => Qlt_bool y x
  | PInf, PInf => false
  | PInf, _ => true
  | NInf, _ => false
  | Fin _, NInf => true
  | Fin _, PInf => false
  end.

Definition nopp (a : num) : num :=
  match a with
  | Fin x => Fin (- x)
  | PInf => NInf
  | NInf => PInf
  | NaN => NaN
  end.

Definition nadd (a b : num) : num :=
  match a, b with
  | NaN, _ | _, NaN => NaN
  | Fin x, Fin y => Fin (x + y)
  | PInf, NInf | NInf, PInf => NaN
  | PInf, _ | _, PInf => PInf
  | NInf, _ | _, NInf => NInf
  end.

Definition nsub (a b : num) : num := nadd a (nopp b).

(** The product of an infinity with a finite factor of sign [x]. *)
Definition inf_times (pos : bool) (x : Q) : num :=
  match x ?= 0 with
  | Eq => NaN
  | Gt => if pos then PInf else NInf
  | Lt => if pos then NInf else PInf
  end.

Definition nmul (a b : num) : num :=
  match a, b with
  | NaN, _ | _, NaN => NaN
  | Fin x, Fin y => Fin (x * y)
  | PInf, Fin y => inf_times true y
  | NInf, Fin y => inf_times false y
  | Fin x, PInf => inf_times true x
  | Fin x, NInf => inf_times false x
  | PInf, PInf | NInf, NInf => PInf
  | PInf, NInf | NInf, PInf => NInf
  end.

Definition ndiv (a b : num) : num :=
  match a, b with
  | NaN, _ | _, NaN => NaN
  | Fin x, Fin y =>
      match y ?= 0 with
      | Eq => inf_times true x
      | _ => Fin (x / y)
      end
  | Fin _, (PInf | NInf) => Fin 0
  | PInf, Fin y => if Qlt_bool y 0 then NInf else PInf
  | NInf, Fin y => if Qlt_bool y 0 then PInf else NInf
  | (PInf | NInf), (PInf | NInf) => NaN
  end.

Infix "+" := nadd : num_scope.
Infix "-" := nsub : num_scope.
Infix "*" := nmul : num_scope.
Infix "/" := ndiv : num_scope.
Infix ">?" := ngt (at level 70, no associativity) : num_scope.

(** [Math.round]: the nearest integer, halves towards [+Infinity]. *)
Definition Math_round (a : num) : num :=
  match a with
  | Fin x => Fin (inject_Z (Qfloor (x + (1 # 2))))
  | _ => a
  end.

(** [Math.min(...xs)] and [Math.max(...xs)]: the identities are [Infinity]
    and [-Infinity]; a [NaN] argument makes the result [NaN]. *)
Definition min2 (a b : num) : num :=
  match a, b with
  | NaN, _ | _, NaN => NaN
  | _, _ => if ngt a b then b else a
  end.

Definition max2 (a b : num) : num :=
  match a, b with
  | NaN, _ | _, NaN => NaN
  | _, _ => if ngt b a then b else a
  end.

Definition Math_min (xs : list num) : num := fold_left min2 xs PInf.
Definition Math_max (xs : list num) : num := fold_left max2 xs NInf.

(** [x || 0] on a number: [0] and [NaN] (and [undefined]) are falsy. *)
Definition or0 (a : num) : num :=
  match a with
  | NaN => Fin 0
  | _ => a
  end.

(** [Math.round(100 * x) / 100]. *)
Definition round2 (x : num) : num :=
  (Math_round (Fin 100 * x) / Fin 100)%num.

(** Equality of numbers as values (finite ones as rationals). *)
Definition num_eq (a b : num) : Prop :=
  match a, b with
  | Fin x, Fin y => x == y
  | PInf, PInf | NInf, NInf | NaN, NaN => True
  | _, _ => False
  end.

(** The same, as a test. *)
Definition num_eqb (a b : num) : bool :=
  match a, b with
  | Fin x, Fin y => Qeq_bool x y
  | PInf, PInf | NInf, NInf | NaN, NaN => true
  | _, _ => false
  end.

(** [a >= b] on numbers that are not [NaN]. *)
Definition nge (a b : num) : Prop :=
  match a, b with
  | NaN, _ | _, NaN => False
  | Fin x, Fin y => y <= x
  | PInf, _ => True
  | _, NInf => True
  | _, _ => False
  end.

(** ** Data model (src/result.ts as used by movenet.ts) *)

Definition Point : Type := (num * num)%type.
Definition Box : Type := (num * num * num * num)%type.

(** [b[0]] .. [b[3]]. *)
Definition box0 (b : Box) : num := let '(a, _, _, _) := b in a.
Definition box1 (b : Box) : num := let '(_, a, _, _) := b in a.
Definition box2 (b : Box) : num := let '(_, _, a, _) := b in a.
Definition box3 (b : Box) : num := let '(_, _, _, a) := b in a.

Module BodyKeypoint.
Record t : Type := Build
  { score : num;
    part : option string;      (* coords.kpt[id], undefined past the table *)
    positionRaw : Point;
    position : Point }.
End BodyKeypoint.

(** What the [keypoints] field of a result refers to: the module-level
    [keypoints] array itself (parseSinglePose stores that array), or an
    array of the result's own (parseMultiPose stores [[...keypoints]]). *)
Inductive KeypointsRef : Type :=
| SharedBuffer
| OwnArray (ks : list BodyKeypoint.t).

Module BodyResult.
Record t : Type := Build
  { id : nat;
    score : num;
    box : Box;
    boxRaw : Box;
    keypoints : KeypointsRef;
    annotations : list (string * list (Point * Point)) }.
End BodyResult.

Record Tensor : Type := { shape : list Z }.

(** [t.shape[i]], [undefined] (here [NaN]) past the end. *)
Definition shapeAt (t : Tensor) (i : nat) : num :=
  match nth_error (shape t) i with
  | Some z => Fin (inject_Z z)
  | None => NaN
  end.

Record BodyConfig : Type :=
  { minConfidence : num;
    maxDetected : nat;
    skipFrames : Z }.

Record Config : Type :=
  { skipFrame : bool;
    body : BodyConfig }.

Record GraphModel : Type := { inputs0_shape : option (list Z) }.

(** The module-level variables of movenet.ts. *)
Record Globals : Type :=
  { model : option GraphModel;
    cachedBoxes : list Box;
    skipped : Z;
    keypoints : list BodyKeypoint.t }.

Definition MAX_SAFE_INTEGER : Z := 9007199254740991.

(** The state right after module load and [load]. *)
Definition initial (m : GraphModel) : Globals :=
  {| model := Some m; cachedBoxes := []; skipped := MAX_SAFE_INTEGER; keypoints := [] |}.

Definition set_keypoints (ks : list BodyKeypoint.t) (g : Globals) : Globals :=
  {| model := model g; cachedBoxes := cachedBoxes g; skipped := skipped g; keypoints := ks |}.

Definition set_cachedBoxes (bs : list Box) (g : Globals) : Globals :=
  {| model := model g; cachedBoxes := bs; skipped := skipped g; keypoints := keypoints g |}.

Definition set_skipped (n : Z) (g : Globals) : Globals :=
  {| model := model g; cachedBoxes := cachedBoxes g; skipped := n; keypoints := keypoints g |}.

(** The array a result's [keypoints] field denotes in a given state. *)
Definition deref (g : Globals) (r : KeypointsRef) : list BodyKeypoint.t :=
  match r with
  | SharedBuffer => keypoints g
  | OwnArray ks => ks
  end.

Definition keypointsOf (g : Globals) (b : BodyResult.t) : list BodyKeypoint.t :=
  deref g (BodyResult.keypoints b).

(** The raw output of one inference, [await t.res.array()], tagged by the test
    [t.res.shape[2] === 17]: for a single-pose tensor (shape [1,1,17,3]) the
    rows of [res[0][0]], otherwise the slots of [res[0]]. *)
Inductive RawOutput : Type :=
| SinglePose (kpt : list (list num))
| MultiPose (slots : list (list num)).

(** [row[i]] read as a number. *)
Definition get (row : list num) (i : nat) : num := nth i row NaN.

(** What one frame is inferred on: a cached box cropped out of the input, or
    the whole input resized. *)
Inductive Region : Type :=
| Crop (b : Box)
| FullFrame.

(** One call of [predict]: the input tensor and what the model returns for
    each region of it (the inference itself is external). *)
Record Frame : Type :=
  { input : Tensor;
    infer : Region -> RawOutput }.

(** The tables of movenetcoords.ts and [scale] of util/box.ts are not among
    the sources; they are parameters of the development. *)
Class Collaborators : Type :=
  { coords_kpt : list string;
    coords_connected : list (string * list string);
    (* scale(points, factor, [width, height]).yxBox *)
    scale_yxBox : list Point -> num -> num * num -> Box }.

Section Model.
Context {collab : Collaborators}.

(** ** createBox *)

Definition createBox (points : list BodyKeypoint.t) : Box * Box :=
  let x := map (fun a => fst (BodyKeypoint.position a)) points in
  let y := map (fun a => snd (BodyKeypoint.position a)) points in
  let box : Box :=
    (Math_min x, Math_min y, Math_max x - Math_min x, Math_max y - Math_min y)%num in
  let xRaw := map (fun a => fst (BodyKeypoint.positionRaw a)) points in
  let yRaw := map (fun a => snd (BodyKeypoint.positionRaw a)) points in
  let boxRaw : Box :=
    (Math_min xRaw, Math_min yRaw,
     Math_max xRaw - Math_min xRaw, Math_max yRaw - Math_min yRaw)%num in
  (box, boxRaw).

(** ** The keypoint pushed for part [id], from the values [y], [x], [score]
    of its row (the same object literal in both decoders) *)

Definition keypointAt (image : Tensor) (inputBox : Box)
    (id : nat) (y x score : num) : BodyKeypoint.t :=
  let positionRaw : Point :=
    ((box3 inputBox - box1 inputBox) * x + box1 inputBox,
     (box2 inputBox - box0 inputBox) * y + box0 inputBox)%num in
  {| BodyKeypoint.score := round2 score;
     BodyKeypoint.part := nth_error coords_kpt id;
     BodyKeypoint.positionRaw := positionRaw;
     BodyKeypoint.position :=
       (Math_round (or0 (shapeAt image 2) * fst positionRaw)%num,
        Math_round (or0 (shapeAt image 1) * snd positionRaw)%num) |}.

(** ** Annotations *)

(** [keypoints.find((kp) => kp.part === name)]. *)
Definition findPart (ks : list BodyKeypoint.t) (name : string) : option BodyKeypoint.t :=
  find (fun kp => match BodyKeypoint.part kp with
                  | Some p => String.eqb p name
                  | None => false
                  end) ks.

Fixpoint segments (ks : list BodyKeypoint.t) (c : num) (indexes : list string)
  : list (Point * Point) :=
  match indexes with
  | a :: ((b :: _) as rest) =>
      (match findPart ks a, findPart ks b with
       | Some pt0, Some pt1 =>
           if ngt (BodyKeypoint.score pt0) (or0 c) && ngt (BodyKeypoint.score pt1) (or0 c)
           then [(BodyKeypoint.position pt0, BodyKeypoint.position pt1)]
           else []
       | _, _ => []
       end) ++ segments ks c rest
  | _ => []
  end.

Definition annotate (ks : list BodyKeypoint.t) (config : Config)
  : list (string * list (Point * Point)) :=
  map (fun '(name, indexes) => (name, segments ks (minConfidence (body config)) indexes))
      coords_connected.

(** ** parseSinglePose *)

(** The loop [for (id = 0; id < kpt.length; id++)], from row [id] on, pushing
    onto the buffer [ks]. *)
Fixpoint singleLoop (config : Config) (image : Tensor) (inputBox : Box)
    (id : nat) (kpt : list (list num)) (ks : list BodyKeypoint.t)
  : list BodyKeypoint.t :=
  match kpt with
  | [] => ks
  | row :: rest =>
      let score := get row 2 in
      let ks' :=
        if ngt score (minConfidence (body config))
        then ks ++ [keypointAt image inputBox id (get row 0) (get row 1) score]
        else ks in
      singleLoop config image inputBox (S id) rest ks'
  end.

(** [keypoints.reduce((prev, curr) => (curr.score > prev ? curr.score : prev), 0)]. *)
Definition maxScore (ks : list BodyKeypoint.t) : num :=
  fold_left (fun prev curr =>
               if ngt (BodyKeypoint.score curr) prev then BodyKeypoint.score curr else prev)
            ks (Fin 0).

Definition parseSinglePose (kpt : list (list num)) (config : Config)
    (image : Tensor) (inputBox : Box) (g : Globals)
  : list BodyResult.t * Globals :=
  let ks := singleLoop config image inputBox 0 kpt [] in  (* keypoints.length = 0 first *)
  let g' := set_keypoints ks g in
  let score := maxScore ks in
  let '(box, boxRaw) := createBox ks in
  let annotations := annotate ks config in
  ([ {| BodyResult.id := 0%nat;
        BodyResult.score := score;
        BodyResult.box := box;
        BodyResult.boxRaw := boxRaw;
        BodyResult.keypoints := SharedBuffer;
        BodyResult.annotations := annotations |} ],
   g').

(** ** parseMultiPose *)

(** The inner loop [for (i = 0; i < 17; i++)] over one slot. *)
Definition slotKeypoints (config : Config) (image : Tensor) (inputBox : Box)
    (kpt : list num) : list BodyKeypoint.t :=
  fold_left
    (fun ks i =>
       let score := get kpt (3 * i + 2) in
       if ngt score (minConfidence (body config))
       then ks ++ [keypointAt image inputBox i (get kpt (3 * i + 0)) (get kpt (3 * i + 1)) score]
       else ks)
    (seq 0 17) [].

Definition totalScore (kpt : list num) : num := round2 (get kpt (51 + 4)).

(** The outer loop [for (id = 0; id < res[0].length; id++)], from slot [id]
    on, pushing onto [bodies]. *)
Fixpoint multiLoop (config : Config) (image : Tensor) (inputBox : Box)
    (id : nat) (slots : list (list num)) (bodies : list BodyResult.t) (g : Globals)
  : list BodyResult.t * Globals :=
  match slots with
  | [] => (bodies, g)
  | kpt :: rest =>
      if ngt (totalScore kpt) (minConfidence (body config)) then
        let ks := slotKeypoints config image inputBox kpt in
        let g' := set_keypoints ks g in
        let '(box, boxRaw) := createBox ks in
        let annotations := annotate ks config in
        multiLoop config image inputBox (S id) rest
          (bodies ++ [ {| BodyResult.id := id;
                          BodyResult.score := totalScore kpt;
                          BodyResult.box := box;
                          BodyResult.boxRaw := boxRaw;
                          BodyResult.keypoints := OwnArray ks;
                          BodyResult.annotations := annotations |} ])
          g'
      else multiLoop config image inputBox (S id) rest bodies g
  end.

(** [bodies.sort((a, b) => b.score - a.score)].  The comparator's result [v]
    puts [b] first when [v > 0]; [NaN] counts as [0].  Array.prototype.sort is
    stable, so for a consistent comparator its result is the stable sorted
    arrangement, computed here by insertion from the right. *)
Definition compareFn (a b : BodyResult.t) : num :=
  (BodyResult.score b - BodyResult.score a)%num.

Fixpoint insertBody (x : BodyResult.t) (l : list BodyResult.t) : list BodyResult.t :=
  match l with
  | [] => [x]
  | y :: l' => if ngt (compareFn x y) (Fin 0) then y :: insertBody x l' else x :: l
  end.

Fixpoint sortBodies (l : list BodyResult.t) : list BodyResult.t :=
  match l with
  | [] => []
  | x :: l' => insertBody x (sortBodies l')
  end.

(** [if (bodies.length > n) bodies.length = n]. *)
Definition truncate (n : nat) (bodies : list BodyResult.t) : list BodyResult.t :=
  if (n <? length bodies)%nat then firstn n bodies else bodies.

Definition parseMultiPose (slots : list (list num)) (config : Config)
    (image : Tensor) (inputBox : Box) (g : Globals)
  : list BodyResult.t * Globals :=
  let '(bodies, g') := multiLoop config image inputBox 0 slots [] g in
  (truncate (maxDetected (body config)) (sortBodies bodies), g').

(** ** predict *)

(** [!model || !model?.inputs[0].shape], negated. *)
Definition modelReady (g : Globals) : bool :=
  match model g with
  | Some m => match inputs0_shape m with Some _ => true | None => false end
  | None => false
  end.

(** [skipped++]: exact up to 2^53, where adding 1 to a double no longer
    changes it. *)
Definition increment (n : Z) : Z :=
  if (n <? 2 ^ 53)%Z then (n + 1)%Z else n.

Definition unitBox : Box := (Fin 0, Fin 0, Fin 1, Fin 1).

(** [(t.res.shape[2] === 17) ? parseSinglePose(...) : parseMultiPose(...)]. *)
Definition decode (res : RawOutput) (config : Config) (image : Tensor)
    (inputBox : Box) (g : Globals) : list BodyResult.t * Globals :=
  match res with
  | SinglePose kpt => parseSinglePose kpt config image inputBox g
  | MultiPose slots => parseMultiPose slots config image inputBox g
  end.

(** What a call of [predict] resolves to, with the inferences it ran, in
    order. *)
Record Outcome : Type :=
  { bodies : list BodyResult.t;
    calls : list Region }.

(** The loop over [cachedBoxes]: detection on each cached box, results
    concatenated. *)
Fixpoint cachedLoop (fr : Frame) (config : Config) (boxes : list Box)
    (acc : Outcome) (g : Globals) : Outcome * Globals :=
  match boxes with
  | [] => (acc, g)
  | b :: rest =>
      let '(newBodies, g') := decode (infer fr (Crop b)) config (input fr) b g in
      cachedLoop fr config rest
        {| bodies := bodies acc ++ newBodies; calls := calls acc ++ [Crop b] |} g'
  end.

(** The first part of [predict], up to the end of the loop over the cached
    boxes. *)
Definition trackCached (fr : Frame) (config : Config) (g : Globals) : Outcome * Globals :=
  let g1 := if negb (skipFrame config) then set_cachedBoxes [] g else g in
  let g2 := set_skipped (increment (skipped g1)) g1 in
  cachedLoop fr config (cachedBoxes g2) {| bodies := []; calls := [] |} g2.

(** The test guarding detection on the full frame; [skipFrames || 0] is
    [skipFrames] on an integer. *)
Definition fullFrameDue (config : Config) (acc : Outcome) (g : Globals) : bool :=
  negb (length (bodies acc) =? maxDetected (body config))%nat
  && (skipFrames (body config) <? skipped g)%Z.

Definition detectFull (fr : Frame) (config : Config) (acc : Outcome) (g : Globals)
  : Outcome * Globals :=
  if fullFrameDue config acc g then
    let '(newBodies, g') := decode (infer fr FullFrame) config (input fr) unitBox g in
    ({| bodies := newBodies; calls := calls acc ++ [FullFrame] |},
     set_skipped 0 (set_cachedBoxes [] g'))
  else (acc, g).

(** The box pushed for one body of the final list. *)
Definition cacheBox (fr : Frame) (g : Globals) (b : BodyResult.t) : Box :=
  let kpts := map BodyKeypoint.position (keypointsOf g b) in
  scale_yxBox kpts (Fin 1.5) (shapeAt (input fr) 2, shapeAt (input fr) 1).

(** The loop [for (i = 0; i < bodies.length; i++)] that fills the cache. *)
Fixpoint cacheLoop (fr : Frame) (g : Globals) (bs : list BodyResult.t) (boxes : list Box)
  : list Box :=
  match bs with
  | [] => boxes
  | b :: rest =>
      if (10 <? length (keypointsOf g b))%nat
      then cacheLoop fr g rest (boxes ++ [cacheBox fr g b])
      else cacheLoop fr g rest boxes
  end.

Definition updateCache (fr : Frame) (config : Config) (acc : Outcome) (g : Globals) : Globals :=
  if skipFrame config then set_cachedBoxes (cacheLoop fr g (bodies acc) []) g else g.

Definition predict (fr : Frame) (config : Config) (g : Globals) : Outcome * Globals :=
  if negb (modelReady g) then ({| bodies := []; calls := [] |}, g)
  else
    let '(acc, g3) := trackCached fr config g in
    let '(acc', g4) := detectFull fr config acc g3 in
    (acc', updateCache fr config acc' g4).

(** Successive calls of [predict], one per frame. *)
Fixpoint run (config : Config) (frames : list Frame) (g : Globals)
  : list Outcome * Globals :=
  match frames with
  | [] => ([], g)
  | fr :: rest =>
      let '(o, g') := predict fr config g in
      let '(os, g'') := run config rest g' in
      (o :: os, g'')
  end.

Definition ranFullFrame (o : Outcome) : bool :=
  existsb (fun r => match r with FullFrame => true | Crop _ => false end) (calls o).

End Model.

(** ** The spec's CoordinateMapper, in the spec's words

    [positionRaw.x = (x1 - x0) * kptX + x0], [positionRaw.y = (y1 - y0) * kptY + y0],
    [position = round(positionRaw * imageDimensions)], for the reference box
    [(y0, x0, y1, x1)]. *)
Definition CoordinateMapper (refBox : Box) (width height : num) (kptY kptX : num)
  : Point * Point :=
  let '(y0, x0, y1, x1) := refBox in
  let rawX := ((x1 - x0) * kptX + x0)%num in
  let rawY := ((y1 - y0) * kptY + y0)%num in
  ((rawX, rawY), (Math_round (rawX * width)%num, Math_round (rawY * height)%num)).

(** ** Concrete collaborators for running the model *)

(** Modelled from the spec: the box-scaling collaborator [scale] of
    util/box.ts, which is not among the sources: the axis-aligned box
    enclosing the points, padded by [factor] about its centre, divided by the
    image's pixel dimensions, as [(y0, x0, y1, x1)]. *)
Definition enclose (points : list Point) (factor : num) (dims : num * num) : Box :=
  let xs := map fst points in
  let ys := map snd points in
  let cx := ((Math_min xs + Math_max xs) / Fin 2)%num in
  let cy := ((Math_min ys + Math_max ys) / Fin 2)%num in
  let rx := (factor * (Math_max xs - Math_min xs) / Fin 2)%num in
  let ry := (factor * (Math_max ys - Math_min ys) / Fin 2)%num in
  ((cy - ry) / snd dims, (cx - rx) / fst dims,
   (cy + ry) / snd dims, (cx + rx) / fst dims)%num.

(** Modelled from the spec: the tables of movenetcoords.ts, which is not
    among the sources: 17 part names and named chains over them. *)
Definition sampleCollaborators : Collaborators :=
  {| coords_kpt :=
       ["nose"; "leftEye"; "rightEye"; "leftEar"; "rightEar";
        "leftShoulder"; "rightShoulder"; "leftElbow"; "rightElbow";
        "leftWrist"; "rightWrist"; "leftHip"; "rightHip";
        "leftKnee"; "rightKnee"; "leftAnkle"; "rightAnkle"]%string;
     coords_connected :=
       [("leftArm", ["leftShoulder"; "leftElbow"; "leftWrist"]);
        ("rightArm", ["rightShoulder"; "rightElbow"; "rightWrist"])]%string;
     scale_yxBox := enclose |}.

(** ** Notions used to state the properties *)

Section Specification.
Context {collab : Collaborators}.

(** [image.shape[2] || 0] and [image.shape[1] || 0]. *)
Definition imageWidth (image : Tensor) : num := or0 (shapeAt image 2).
Definition imageHeight (image : Tensor) : num := or0 (shapeAt image 1).

(** The [(y, x)] pairs a raw output holds, one per part slot. *)
Definition rawCoordinates (res : RawOutput) : list (num * num) :=
  match res with
  | SinglePose kpt => map (fun row => (get row 0, get row 1)) kpt
  | MultiPose slots =>
      flat_map (fun kpt => map (fun i => (get kpt (3 * i + 0), get kpt (3 * i + 1)))
                               (seq 0 17)) slots
  end.

(** The raw scores a raw output holds, one per part slot. *)
Definition rawScores (res : RawOutput) : list num :=
  match res with
  | SinglePose kpt => map (fun row => get row 2) kpt
  | MultiPose slots =>
      flat_map (fun kpt => map (fun i => get kpt (3 * i + 2)) (seq 0 17)) slots
  end.

(** The result the spec describes for a surviving slot of a multi-pose
    output: its [id] is the slot index and its [score] the aggregate
    score. *)
Definition slotBody (config : Config) (image : Tensor) (inputBox : Box)
    (id : nat) (kpt : list num) : BodyResult.t :=
  let ks := slotKeypoints config image inputBox kpt in
  {| BodyResult.id := id;
     BodyResult.score := totalScore kpt;
     BodyResult.box := fst (createBox ks);
     BodyResult.boxRaw := snd (createBox ks);
     BodyResult.keypoints := OwnArray ks;
     BodyResult.annotations := annotate ks config |}.

(** The slots, numbered from [id0], whose aggregate score passes the filter. *)
Definition survivors (config : Config) (id0 : nat) (slots : list (list num))
  : list (nat * list num) :=
  filter (fun s => ngt (totalScore (snd s)) (minConfidence (body config)))
         (combine (seq id0 (length slots)) slots).

Definition emitted (config : Config) (image : Tensor) (inputBox : Box)
    (id0 : nat) (slots : list (list num)) : list BodyResult.t :=
  map (fun s => slotBody config image inputBox (fst s) (snd s))
      (survivors config id0 slots).

(** Scores never increase along the list. *)
Definition descending (l : list BodyResult.t) : Prop :=
  StronglySorted (fun a b => nge (BodyResult.score a) (BodyResult.score b)) l.

(** A result whose score is a number. *)
Definition scored (b : BodyResult.t) : Prop := BodyResult.score b <> NaN.

(** The results of [l] whose score is [s], in the order of [l]. *)
Definition withScore (s : num) (l : list BodyResult.t) : list BodyResult.t :=
  filter (fun b => num_eqb (BodyResult.score b) s) l.

(** A keypoint is kept by the filter when its raw score exceeds the threshold;
    what it stores is that score rounded to two decimals. *)
Definition keptFrom (config : Config) (raw : num) (kp : BodyKeypoint.t) : Prop :=
  ngt raw (minConfidence (body config)) = true /\ BodyKeypoint.score kp = round2 raw.

(** A keypoint kept from one of the raw scores [raws]. *)
Definition keptOf (config : Config) (raws : list num) (kp : BodyKeypoint.t) : Prop :=
  exists raw, In raw raws /\ keptFrom config raw kp.

(** A keypoint kept from the output of one of this frame's inferences. *)
Definition keptIn (fr : Frame) (config : Config) (kp : BodyKeypoint.t) : Prop :=
  exists region, keptOf config (rawScores (infer fr region)) kp.

(** Every keypoint the given results denote in state [g] satisfies [P]. *)
Definition allKept (P : BodyKeypoint.t -> Prop) (bs : list BodyResult.t) (g : Globals)
  : Prop :=
  forall b, In b bs -> Forall P (keypointsOf g b).

(** Rows [[y, x, score]] none of whose scores is negative. *)
Definition validRows (kpt : list (list num)) : Prop :=
  Forall (fun row => ngt (Fin 0) (get row 2) = false) kpt.

(** A frame of a single-pose model: every inference on it returns a
    single-pose output with valid rows. *)
Definition validSingle (fr : Frame) : Prop :=
  forall region, exists kpt, infer fr region = SinglePose kpt /\ validRows kpt.

(** What a frame of a single-pose model returns when at most one region is
    cached: nothing, no inference having run, or the one result of the last
    decode, whose keypoints are the shared buffer. *)
Definition singleShape (fr : Frame) (config : Config) (o : Outcome) (g : Globals) : Prop :=
  (bodies o = [] /\ calls o = [])
  \/ exists kpt inputBox,
       validRows kpt
       /\ keypoints g = singleLoop config (input fr) inputBox 0 kpt []
       /\ bodies o = fst (parseSinglePose kpt config (input fr) inputBox g).

(** [lo] is the least of [xs] and [size] the distance from it to the
    greatest of [xs]. *)
Definition spans (xs : list num) (lo size : num) : Prop :=
  In lo xs
  /\ exists hi, In hi xs /\ size = (hi - lo)%num
                /\ forall x, In x xs -> nge x lo /\ nge hi x.

(** [seg] joins the positions of two keypoints of [ks] whose parts are
    neighbours in the chain [indexes] and whose stored scores both exceed
    [minConfidence || 0]. *)
Definition joins (config : Config) (ks : list BodyKeypoint.t) (indexes : list string)
    (seg : Point * Point) : Prop :=
  exists a b pt0 pt1 before after,
    indexes = before ++ a :: b :: after
    /\ In pt0 ks /\ BodyKeypoint.part pt0 = Some a
    /\ In pt1 ks /\ BodyKeypoint.part pt1 = Some b
    /\ ngt (BodyKeypoint.score pt0) (or0 (minConfidence (body config))) = true
    /\ ngt (BodyKeypoint.score pt1) (or0 (minConfidence (body config))) = true
    /\ seg = (BodyKeypoint.position pt0, BodyKeypoint.position pt1).

(** A frame of a single-pose model: every inference on it returns a
    single-pose output. *)
Definition singleModel (fr : Frame) : Prop :=
  forall region, exists kpt, infer fr region = SinglePose kpt.

(** The number of part slots a raw output holds per pose. *)
Definition slotCount (res : RawOutput) : nat :=
  match res with
  | SinglePose kpt => length kpt
  | MultiPose _ => 17
  end.

(** The box of an empty keypoint list. *)
Definition emptyBox : Box := (PInf, PInf, NInf, NInf).

End Specification.

(** ** The time stamp of the demo's [log]

    [log] prefixes its message with the hours, minutes, seconds and
    milliseconds of the current date, each as decimal digits padded with
    zeros ([toString().padStart(n, '0')]). *)

(** [n.toString()] for a natural number. *)
Definition toString (n : nat) : string :=
  DecimalString.NilEmpty.string_of_uint (Nat.to_uint n).

Fixpoint zeros (k : nat) : string :=
  match k with
  | O => EmptyString
  | S k' => String "0"%char (zeros k')
  end.

(** [s.padStart(target, '0')]: nothing is added to a string that is long
    enough. *)
Definition padStart (target : nat) (s : string) : string :=
  (zeros (target - String.length s) ++ s)%string.

Definition log_ts (hours minutes seconds milliseconds : nat) : string :=
  (padStart 2 (toString hours) ++ ":" ++ padStart 2 (toString minutes) ++ ":"
   ++ padStart 2 (toString seconds) ++ "." ++ padStart 3 (toString milliseconds))%string.

(** A string of decimal digits read as a number. *)
Definition readNat (s : string) : option nat :=
  option_map Nat.of_uint (DecimalString.NilEmpty.uint_of_string s).

(** ** Concrete inputs *)

Definition sampleModel : GraphModel := {| inputs0_shape := Some [1; 256; 256; 3]%Z |}.

(** A 640 x 480 input. *)
Definition sampleImage : Tensor := {| shape := [1; 480; 640; 3]%Z |}.

Definition sampleConfig : Config :=
  {| skipFrame := true;
     body := {| minConfidence := Fin 0.2; maxDetected := 2; skipFrames := 5 |} |}.

(** A single-pose row [[y, x, score]] and a multi-pose slot of 56 equal
    values. *)
Definition sampleRow (s : Q) : list num := [Fin 0.5; Fin 0.25; Fin s].
Definition sampleSlot (s : Q) : list num := repeat (Fin s) 56.

(** A frame on which every inference returns [res]. *)
Definition frameOf (res : RawOutput) : Frame :=
  {| input := sampleImage; infer := fun _ => res |}.

(** A multi-pose frame with aggregate scores 0.9, 0.4 and 0.1, and
    single-pose frames with the given scores. *)
Definition multiFrame : Frame :=
  frameOf (MultiPose [sampleSlot 0.9; sampleSlot 0.4; sampleSlot 0.1]).

Definition singleFrame (scores : list Q) : Frame :=
  frameOf (SinglePose (map sampleRow scores)).

(** Variations of the configuration: a refresh on every frame without
    tracking, a refresh threshold of 2, a threshold of 2^53, and a maximum of
    0 detections. *)
Definition eagerConfig : Config :=
  {| skipFrame := false;
     body := {| minConfidence := Fin 0.2; maxDetected := 2; skipFrames := 0 |} |}.

Definition everyThirdConfig : Config :=
  {| skipFrame := true;
     body := {| minConfidence := Fin 0.2; maxDetected := 2; skipFrames := 2 |} |}.

Definition neverConfig : Config :=
  {| skipFrame := true;
     body := {| minConfidence := Fin 0.2; maxDetected := 1;
                skipFrames := 9007199254740992 |} |}.

Definition zeroConfig : Config :=
  {| skipFrame := true;
     body := {| minConfidence := Fin 0.2; maxDetected := 0; skipFrames := 5 |} |}.

(** A state with no model loaded, a state with two cached regions, and
    keypoint lists to box: two finite points, and one with a [NaN] pixel x. *)
Definition noModel : Globals :=
  {| model := None; cachedBoxes := [unitBox]; skipped := 3; keypoints := [] |}.

Definition trackedState : Globals :=
  set_cachedBoxes [unitBox; unitBox] (initial sampleModel).

Definition samplePoints : list BodyKeypoint.t :=
  [ {| BodyKeypoint.score := Fin 0.5; BodyKeypoint.part := None;
       BodyKeypoint.positionRaw := (Fin 0.25, Fin 0.5);
       BodyKeypoint.position := (Fin 160, Fin 240) |};
    {| BodyKeypoint.score := Fin 0.7; BodyKeypoint.part := None;
       BodyKeypoint.positionRaw := (Fin 0.5, Fin 0.25);
       BodyKeypoint.position := (Fin 320, Fin 120) |} ].

Definition poisonedPoint : BodyKeypoint.t :=
  {| BodyKeypoint.score := Fin 0.5; BodyKeypoint.part := None;
     BodyKeypoint.positionRaw := (NaN, Fin 0.5);
     BodyKeypoint.position := (NaN, Fin 240) |}.

(** * Properties *)

Unset Implicit Arguments.

(** ** Numbers *)

Lemma Qlt_bool_iff (x y : Q) : Qlt_bool x y = true <-> x < y.
Proof.
  unfold Qlt_bool. rewrite Qlt_alt.
  destruct (x ?= y); split; congruence.
Qed.

Lemma Qlt_bool_false_iff (x y : Q) : Qlt_bool x y = false <-> y <= x.
Proof.
  rewrite <- Bool.not_true_iff_false, Qlt_bool_iff. split.
  - apply Qnot_lt_le.
  - apply Qle_not_lt.
Qed.

Lemma ngt_not_nan (a b : num) : ngt a b = true -> a <> NaN /\ a <> NInf /\ b <> NaN.
Proof. destruct a, b; simpl; intros H; repeat split; congruence. Qed.

Lemma ngt_irrefl (a : num) : ngt a a = false.
Proof.
  destruct a; simpl; trivial.
  apply Qlt_bool_false_iff, Qle_refl.
Qed.

Lemma num_eq_refl (a : num) : num_eq a a.
Proof. destruct a; simpl; trivial. reflexivity. Qed.

Lemma num_eq_sym (a b : num) : num_eq a b -> num_eq b a.
Proof. destruct a, b; simpl; trivial. intros H. symmetry. exact H. Qed.

Lemma num_eq_trans (a b c : num) : num_eq a b -> num_eq b c -> num_eq a c.
Proof.
  destruct a, b, c; simpl; trivial; try contradiction.
  intros H1 H2. rewrite H1. exact H2.
Qed.

Lemma Math_round_eq (a b : num) : num_eq a b -> Math_round a = Math_round b.
Proof.
  destruct a, b; unfold num_eq, Math_round; intros H; try contradiction; trivial.
  do 2 f_equal. apply Qfloor_comp. rewrite H. reflexivity.
Qed.

Lemma nmul_comm (a b : num) : num_eq (a * b)%num (b * a)%num.
Proof.
  destruct a, b; simpl; trivial; try apply num_eq_refl.
  apply Qmult_comm.
Qed.

Lemma Math_round_nmul_comm (a b : num) : Math_round (a * b)%num = Math_round (b * a)%num.
Proof. apply Math_round_eq, nmul_comm. Qed.

(** In the unit box a coordinate is mapped to itself. *)
Lemma unit_affine (k : num) : num_eq ((Fin 1 - Fin 0) * k + Fin 0)%num k.
Proof.
  destruct k; simpl; trivial.
  ring.
Qed.

Lemma nmul_eq_l (a b c : num) : num_eq a b -> num_eq (a * c)%num (b * c)%num.
Proof.
  destruct a as [x| | |], b as [y| | |]; simpl; try contradiction;
    intros H; try exact I; try apply num_eq_refl.
  destruct c as [z| | |]; simpl; trivial.
  - rewrite H. reflexivity.
  - unfold inf_times. rewrite H. apply num_eq_refl.
  - unfold inf_times. rewrite H. apply num_eq_refl.
Qed.

(** ** Rounding to two decimals *)

Lemma round2_fin (x : Q) : round2 (Fin x) = Fin (inject_Z (Qfloor (100 * x + (1 # 2))) / 100).
Proof. reflexivity. Qed.

Lemma round2_close (x : Q) :
  x - (1 # 200) <= inject_Z (Qfloor (100 * x + (1 # 2))) / 100
  /\ inject_Z (Qfloor (100 * x + (1 # 2))) / 100 <= x + (1 # 200).
Proof.
  pose proof (Qfloor_le (100 * x + (1 # 2))) as Hle.
  pose proof (Qlt_floor (100 * x + (1 # 2))) as Hlt.
  rewrite inject_Z_plus in Hlt.
  set (f := inject_Z (Qfloor (100 * x + (1 # 2)))) in *.
  change (inject_Z 1) with 1 in Hlt.
  split.
  - apply Qle_shift_div_l; [reflexivity | lra].
  - apply Qle_shift_div_r; [reflexivity | lra].
Qed.

(** ** Decoding loops *)

Section Decoding.
Context {collab : Collaborators}.

Lemma fold_push (A B : Type) (p : A -> bool) (f : A -> B) (l : list A) (acc : list B) :
  fold_left (fun ks i => if p i then ks ++ [f i] else ks) l acc
  = acc ++ map f (filter p l).
Proof.
  revert acc. induction l as [|a l IH]; intros acc; simpl.
  - now rewrite app_nil_r.
  - rewrite IH. destruct (p a); simpl; trivial.
    now rewrite <- app_assoc.
Qed.

Lemma slotKeypoints_eq (config : Config) (image : Tensor) (inputBox : Box) (kpt : list num) :
  slotKeypoints config image inputBox kpt
  = map (fun i => keypointAt image inputBox i (get kpt (3 * i + 0)) (get kpt (3 * i + 1))
                             (get kpt (3 * i + 2)))
        (filter (fun i => ngt (get kpt (3 * i + 2)) (minConfidence (body config))) (seq 0 17)).
Proof.
  unfold slotKeypoints.
  exact (fold_push _ _
           (fun i => ngt (get kpt (3 * i + 2)) (minConfidence (body config)))
           (fun i => keypointAt image inputBox i (get kpt (3 * i + 0)) (get kpt (3 * i + 1))
                                (get kpt (3 * i + 2)))
           (seq 0 17) []).
Qed.

Lemma singleLoop_eq (config : Config) (image : Tensor) (inputBox : Box)
    (kpt : list (list num)) (id : nat) (ks : list BodyKeypoint.t) :
  singleLoop config image inputBox id kpt ks
  = ks ++ map (fun s => keypointAt image inputBox (fst s) (get (snd s) 0) (get (snd s) 1)
                                   (get (snd s) 2))
              (filter (fun s => ngt (get (snd s) 2) (minConfidence (body config)))
                      (combine (seq id (length kpt)) kpt)).
Proof.
  revert id ks. induction kpt as [|row rest IH]; intros id ks; simpl.
  - now rewrite app_nil_r.
  - rewrite IH. destruct (ngt (get row 2) (minConfidence (body config))); simpl; trivial.
    now rewrite <- app_assoc.
Qed.

Lemma singleLoop_In (config : Config) (image : Tensor) (inputBox : Box)
    (kpt : list (list num)) (kp : BodyKeypoint.t) :
  In kp (singleLoop config image inputBox 0 kpt []) ->
  exists id row,
    In row kpt
    /\ ngt (get row 2) (minConfidence (body config)) = true
    /\ kp = keypointAt image inputBox id (get row 0) (get row 1) (get row 2).
Proof.
  rewrite singleLoop_eq. simpl. intros H.
  apply in_map_iff in H. destruct H as [[id row] [Hkp Hin]].
  apply filter_In in Hin. destruct Hin as [Hin Hgt].
  apply in_combine_r in Hin.
  exists id, row. simpl in *. auto.
Qed.

Lemma slotKeypoints_In (config : Config) (image : Tensor) (inputBox : Box)
    (kpt : list num) (kp : BodyKeypoint.t) :
  In kp (slotKeypoints config image inputBox kpt) ->
  exists i,
    In i (seq 0 17)
    /\ ngt (get kpt (3 * i + 2)) (minConfidence (body config)) = true
    /\ kp = keypointAt image inputBox i (get kpt (3 * i + 0)) (get kpt (3 * i + 1))
                       (get kpt (3 * i + 2)).
Proof.
  rewrite slotKeypoints_eq. intros H.
  apply in_map_iff in H. destruct H as [i [Hkp Hin]].
  apply filter_In in Hin. destruct Hin as [Hin Hgt].
  exists i. auto.
Qed.

(** The results of the outer loop, and what it leaves in the shared buffer. *)
Lemma multiLoop_fst (config : Config) (image : Tensor) (inputBox : Box)
    (slots : list (list num)) (id : nat) (acc : list BodyResult.t) (g : Globals) :
  fst (multiLoop config image inputBox id slots acc g)
  = acc ++ emitted config image inputBox id slots.
Proof.
  revert id acc g. induction slots as [|kpt rest IH]; intros id acc g; simpl.
  - unfold emitted, survivors. simpl. now rewrite app_nil_r.
  - unfold emitted, survivors in *. simpl.
    destruct (ngt (totalScore kpt) (minConfidence (body config))) eqn:E.
    + rewrite IH. simpl. rewrite <- app_assoc. reflexivity.
    + apply IH.
Qed.

Lemma multiLoop_snd (config : Config) (image : Tensor) (inputBox : Box)
    (slots : list (list num)) (id : nat) (acc : list BodyResult.t) (g : Globals) :
  let g' := snd (multiLoop config image inputBox id slots acc g) in
  model g' = model g /\ cachedBoxes g' = cachedBoxes g /\ skipped g' = skipped g
  /\ (keypoints g' = keypoints g
      \/ exists kpt, In kpt slots
                     /\ keypoints g' = slotKeypoints config image inputBox kpt).
Proof.
  revert id acc g. induction slots as [|kpt rest IH]; intros id acc g; simpl.
  - auto.
  - destruct (ngt (totalScore kpt) (minConfidence (body config))).
    + match goal with |- context [multiLoop ?c ?i ?b ?n ?s ?a ?h] =>
        destruct (IH n a h) as (Hm & Hc & Hs & Hk) end.
      simpl in *. repeat split; trivial.
      destruct Hk as [Hk | [k [Hin Hk]]].
      * right. exists kpt. split; auto.
      * right. exists k. split; auto.
    + destruct (IH (S id) acc g) as (Hm & Hc & Hs & Hk).
      repeat split; trivial.
      destruct Hk as [Hk | [k [Hin Hk]]]; [left; trivial | right; exists k; auto].
Qed.

End Decoding.

(** ** Sorting by descending score *)

Section Sorting.

Lemma compareFn_gt (x y : BodyResult.t) :
  ngt (compareFn x y) (Fin 0) = ngt (BodyResult.score y) (BodyResult.score x).
Proof.
  unfold compareFn, nsub.
  destruct (BodyResult.score y) as [b| | |], (BodyResult.score x) as [a| | |];
    simpl; trivial.
  apply Bool.eq_true_iff_eq. rewrite !Qlt_bool_iff. split; intros H; lra.
Qed.

Lemma nge_trans (a b c : num) : nge a b -> nge b c -> nge a c.
Proof.
  destruct a, b, c; simpl; trivial; try contradiction.
  intros H1 H2. apply Qle_trans with q0; assumption.
Qed.

Lemma ngt_nge (a b : num) : ngt a b = true -> nge a b.
Proof.
  destruct a, b; simpl; trivial; try discriminate.
  rewrite Qlt_bool_iff. apply Qlt_le_weak.
Qed.

Lemma not_ngt_nge (a b : num) : a <> NaN -> b <> NaN -> ngt b a = false -> nge a b.
Proof.
  destruct a, b; simpl; trivial; try discriminate; try congruence.
  intros _ _. apply Qlt_bool_false_iff.
Qed.

Lemma num_eqb_not_gt (a b s : num) :
  num_eqb a s = true -> num_eqb b s = true -> ngt b a = false.
Proof.
  destruct a, b, s; simpl; trivial; try discriminate.
  intros H1 H2. apply Qeq_bool_iff in H1, H2.
  apply Qlt_bool_false_iff. rewrite H1, H2. apply Qle_refl.
Qed.

Lemma insertBody_perm (x : BodyResult.t) (l : list BodyResult.t) :
  Permutation (insertBody x l) (x :: l).
Proof.
  induction l as [|y l IH]; simpl.
  - apply Permutation_refl.
  - destruct (ngt (compareFn x y) (Fin 0)).
    + apply perm_trans with (y :: x :: l).
      * apply perm_skip, IH.
      * apply perm_swap.
    + apply Permutation_refl.
Qed.

Lemma sortBodies_perm (l : list BodyResult.t) : Permutation (sortBodies l) l.
Proof.
  induction l as [|x l IH]; simpl.
  - apply perm_nil.
  - apply perm_trans with (x :: sortBodies l).
    + apply insertBody_perm.
    + apply perm_skip, IH.
Qed.

Lemma sortBodies_length (l : list BodyResult.t) : length (sortBodies l) = length l.
Proof. apply Permutation_length, sortBodies_perm. Qed.

Lemma insertBody_descending (x : BodyResult.t) (l : list BodyResult.t) :
  scored x -> Forall scored l -> descending l -> descending (insertBody x l).
Proof.
  unfold descending. intros Hx Hl Hs.
  induction l as [|y l IH]; simpl.
  - constructor; constructor.
  - apply StronglySorted_inv in Hs. destruct Hs as [Hs Hy].
    apply Forall_cons_iff in Hl. destruct Hl as [Hys Hl].
    rewrite compareFn_gt.
    destruct (ngt (BodyResult.score y) (BodyResult.score x)) eqn:E.
    + constructor.
      * apply IH; assumption.
      * apply Forall_forall. intros z Hz.
        apply (Permutation_in _ (insertBody_perm x l)) in Hz.
        destruct Hz as [<- | Hz].
        -- apply ngt_nge, E.
        -- rewrite Forall_forall in Hy. apply Hy, Hz.
    + assert (Hxy : nge (BodyResult.score x) (BodyResult.score y))
        by (apply not_ngt_nge; assumption).
      constructor.
      * constructor; assumption.
      * constructor; [exact Hxy|].
        apply Forall_forall. intros z Hz.
        rewrite Forall_forall in Hy.
        apply nge_trans with (BodyResult.score y); [exact Hxy | apply Hy, Hz].
Qed.

Lemma sortBodies_descending (l : list BodyResult.t) :
  Forall scored l -> descending (sortBodies l).
Proof.
  induction l as [|x l IH]; simpl; intros H.
  - constructor.
  - apply Forall_cons_iff in H. destruct H as [Hx Hl].
    apply insertBody_descending; trivial.
    + apply Forall_forall. intros z Hz.
      apply (Permutation_in _ (sortBodies_perm l)) in Hz.
      rewrite Forall_forall in Hl. apply Hl, Hz.
    + apply IH, Hl.
Qed.

(** Insertion never moves [x] past a result that [p] groups with it. *)
Lemma insertBody_filter (p : BodyResult.t -> bool) (x : BodyResult.t) (l : list BodyResult.t) :
  (forall y, p x = true -> p y = true ->
             ngt (BodyResult.score y) (BodyResult.score x) = false) ->
  filter p (insertBody x l) = filter p (x :: l).
Proof.
  intros Hp. induction l as [|y l IH]; simpl; trivial.
  rewrite compareFn_gt.
  destruct (ngt (BodyResult.score y) (BodyResult.score x)) eqn:E; simpl; trivial.
  rewrite IH. simpl.
  destruct (p x) eqn:Ex; trivial.
  destruct (p y) eqn:Ey; trivial.
  rewrite (Hp y eq_refl Ey) in E. discriminate.
Qed.

Lemma sortBodies_stable (s : num) (l : list BodyResult.t) :
  withScore s (sortBodies l) = withScore s l.
Proof.
  unfold withScore. induction l as [|x l IH]; simpl; trivial.
  rewrite insertBody_filter.
  - simpl. now rewrite IH.
  - intros y Hx Hy. apply num_eqb_not_gt with s; assumption.
Qed.

Lemma truncate_firstn (n : nat) (l : list BodyResult.t) : truncate n l = firstn n l.
Proof.
  unfold truncate. destruct (n <? length l)%nat eqn:E; trivial.
  apply Nat.ltb_ge in E. symmetry. apply firstn_all2, E.
Qed.

Lemma truncate_length (n : nat) (l : list BodyResult.t) : (length (truncate n l) <= n)%nat.
Proof. rewrite truncate_firstn. apply firstn_le_length. Qed.

Lemma In_firstn (A : Type) (n : nat) (l : list A) (x : A) : In x (firstn n l) -> In x l.
Proof.
  intros H. rewrite <- (firstn_skipn n l). apply in_or_app. now left.
Qed.

Lemma descending_app (l1 l2 : list BodyResult.t) :
  descending (l1 ++ l2) ->
  descending l1 /\
  forall a b, In a l1 -> In b l2 -> nge (BodyResult.score a) (BodyResult.score b).
Proof.
  unfold descending. induction l1 as [|x l1 IH]; simpl; intros H.
  - split; [constructor | contradiction].
  - apply StronglySorted_inv in H. destruct H as [Hs Hx].
    destruct (IH Hs) as [H1 H2]. split.
    + constructor; trivial.
      apply Forall_app in Hx. tauto.
    + intros a b [<- | Ha] Hb.
      * rewrite Forall_forall in Hx. apply Hx, in_or_app. now right.
      * now apply H2.
Qed.

End Sorting.

(** ** The two decoders *)

Section Decoders.
Context {collab : Collaborators}.

Lemma parseSinglePose_eq (kpt : list (list num)) (config : Config) (image : Tensor)
    (inputBox : Box) (g : Globals) :
  let ks := singleLoop config image inputBox 0 kpt [] in
  parseSinglePose kpt config image inputBox g
  = ([ {| BodyResult.id := 0%nat;
          BodyResult.score := maxScore ks;
          BodyResult.box := fst (createBox ks);
          BodyResult.boxRaw := snd (createBox ks);
          BodyResult.keypoints := SharedBuffer;
          BodyResult.annotations := annotate ks config |} ],
     set_keypoints ks g).
Proof. reflexivity. Qed.

Lemma parseMultiPose_fst (slots : list (list num)) (config : Config) (image : Tensor)
    (inputBox : Box) (g : Globals) :
  fst (parseMultiPose slots config image inputBox g)
  = firstn (maxDetected (body config)) (sortBodies (emitted config image inputBox 0 slots)).
Proof.
  unfold parseMultiPose.
  pose proof (multiLoop_fst config image inputBox slots 0 [] g) as H.
  destruct (multiLoop config image inputBox 0 slots [] g) as [bs g'].
  simpl in *. subst bs. apply truncate_firstn.
Qed.

Lemma parseMultiPose_snd (slots : list (list num)) (config : Config) (image : Tensor)
    (inputBox : Box) (g : Globals) :
  snd (parseMultiPose slots config image inputBox g)
  = snd (multiLoop config image inputBox 0 slots [] g).
Proof.
  unfold parseMultiPose.
  destruct (multiLoop config image inputBox 0 slots [] g) as [bs g']. reflexivity.
Qed.

Lemma in_combine_seq (A : Type) (l : list A) (a i : nat) (x : A) :
  In (i, x) (combine (seq a (length l)) l)
  <-> exists j, i = (a + j)%nat /\ nth_error l j = Some x.
Proof.
  revert a. induction l as [|y l IH]; intros a; simpl.
  - split; [contradiction | intros [[|j] [_ H]]; discriminate].
  - rewrite IH. split.
    + intros [H | [j [-> H]]].
      * inversion H; subst. exists 0%nat. split; [lia | reflexivity].
      * exists (S j). split; [lia | exact H].
    + intros [[|j] [-> H]]; simpl in H.
      * left. inversion H. f_equal. lia.
      * right. exists j. split; [lia | exact H].
Qed.

Lemma survivors_In (config : Config) (slots : list (list num)) (id : nat) (kpt : list num) :
  In (id, kpt) (survivors config 0 slots)
  <-> nth_error slots id = Some kpt
      /\ ngt (totalScore kpt) (minConfidence (body config)) = true.
Proof.
  unfold survivors. rewrite filter_In, in_combine_seq. simpl. split.
  - intros [[j [-> H]] Hgt]. auto.
  - intros [H Hgt]. split; [exists id; auto | exact Hgt].
Qed.

Lemma map_fst_combine_seq (A : Type) (l : list A) (a : nat) :
  map fst (combine (seq a (length l)) l) = seq a (length l).
Proof.
  revert a. induction l as [|y l IH]; intros a; simpl; trivial.
  now rewrite IH.
Qed.

Lemma NoDup_map_filter (X Y : Type) (keep : X -> bool) (key : X -> Y) (xs : list X) :
  NoDup (map key xs) -> NoDup (map key (filter keep xs)).
Proof.
  intros Hnd. induction xs as [|x xs IH]; simpl in *; trivial.
  apply NoDup_cons_iff in Hnd. destruct Hnd as [Hx Hxs].
  destruct (keep x); simpl; auto.
  constructor; auto.
  intros Hin. apply Hx.
  apply in_map_iff in Hin. destruct Hin as [y [Hy Hin]].
  apply filter_In in Hin. apply in_map_iff. exists y. tauto.
Qed.

Lemma emitted_ids (config : Config) (image : Tensor) (inputBox : Box)
    (slots : list (list num)) :
  map BodyResult.id (emitted config image inputBox 0 slots)
  = map fst (survivors config 0 slots).
Proof. unfold emitted. rewrite map_map. reflexivity. Qed.

Lemma emitted_In (config : Config) (image : Tensor) (inputBox : Box)
    (slots : list (list num)) (b : BodyResult.t) :
  In b (emitted config image inputBox 0 slots)
  <-> exists id kpt,
        nth_error slots id = Some kpt
        /\ ngt (totalScore kpt) (minConfidence (body config)) = true
        /\ b = slotBody config image inputBox id kpt.
Proof.
  unfold emitted. rewrite in_map_iff. split.
  - intros [[id kpt] [<- Hin]]. apply survivors_In in Hin.
    exists id, kpt. simpl. tauto.
  - intros [id [kpt (H1 & H2 & ->)]]. exists (id, kpt). split; trivial.
    apply survivors_In. auto.
Qed.

Lemma emitted_scored (config : Config) (image : Tensor) (inputBox : Box)
    (slots : list (list num)) :
  Forall scored (emitted config image inputBox 0 slots).
Proof.
  apply Forall_forall. intros b Hb. apply emitted_In in Hb.
  destruct Hb as [id [kpt (_ & Hgt & ->)]].
  unfold scored. simpl. apply ngt_not_nan in Hgt. tauto.
Qed.

End Decoders.

(** ** One frame *)

Section Frames.
Context {collab : Collaborators}.

Lemma decode_globals (res : RawOutput) (config : Config) (image : Tensor)
    (inputBox : Box) (g : Globals) :
  let g' := snd (decode res config image inputBox g) in
  model g' = model g /\ cachedBoxes g' = cachedBoxes g /\ skipped g' = skipped g.
Proof.
  destruct res as [kpt | slots]; simpl.
  - auto.
  - rewrite parseMultiPose_snd.
    destruct (multiLoop_snd config image inputBox slots 0 [] g) as (H1 & H2 & H3 & _).
    auto.
Qed.

Lemma cachedLoop_globals (fr : Frame) (config : Config) (boxes : list Box)
    (acc : Outcome) (g : Globals) :
  let r := cachedLoop fr config boxes acc g in
  model (snd r) = model g /\ cachedBoxes (snd r) = cachedBoxes g
  /\ skipped (snd r) = skipped g
  /\ calls (fst r) = calls acc ++ map Crop boxes.
Proof.
  revert acc g. induction boxes as [|b rest IH]; intros acc g; simpl.
  - rewrite app_nil_r. auto.
  - pose proof (decode_globals (infer fr (Crop b)) config (input fr) b g) as Hd.
    destruct (decode (infer fr (Crop b)) config (input fr) b g) as [nb g'].
    simpl in Hd. destruct Hd as (Hm & Hc & Hs).
    match goal with |- context [cachedLoop fr config rest ?a g'] =>
      destruct (IH a g') as (H1 & H2 & H3 & H4) end.
    simpl in H4. rewrite <- app_assoc in H4. simpl in H4.
    repeat split; congruence.
Qed.

Lemma trackCached_globals (fr : Frame) (config : Config) (g : Globals) :
  let r := trackCached fr config g in
  model (snd r) = model g
  /\ cachedBoxes (snd r) = (if skipFrame config then cachedBoxes g else [])
  /\ skipped (snd r) = increment (skipped g)
  /\ calls (fst r) = map Crop (cachedBoxes (snd r)).
Proof.
  unfold trackCached.
  match goal with |- context [cachedLoop fr config ?bs ?a ?h] =>
    destruct (cachedLoop_globals fr config bs a h) as (H1 & H2 & H3 & H4) end.
  simpl in *. rewrite H1, H2, H3, H4.
  destruct (skipFrame config); simpl; auto.
Qed.

Lemma existsb_crops (boxes : list Box) :
  existsb (fun r => match r with FullFrame => true | Crop _ => false end) (map Crop boxes)
  = false.
Proof. induction boxes; simpl; trivial. Qed.

Lemma detectFull_ran (fr : Frame) (config : Config) (acc : Outcome) (g : Globals) :
  ranFullFrame acc = false ->
  ranFullFrame (fst (detectFull fr config acc g)) = fullFrameDue config acc g.
Proof.
  intros Hacc. unfold detectFull.
  destruct (fullFrameDue config acc g); trivial.
  destruct (decode (infer fr FullFrame) config (input fr) unitBox g) as [nb g'].
  unfold ranFullFrame. simpl. rewrite existsb_app. simpl. apply orb_true_r.
Qed.

Lemma cacheLoop_eq (fr : Frame) (g : Globals) (bs : list BodyResult.t) (boxes : list Box) :
  cacheLoop fr g bs boxes
  = boxes ++ map (cacheBox fr g)
                 (filter (fun b => (10 <? length (keypointsOf g b))%nat) bs).
Proof.
  revert boxes. induction bs as [|b bs IH]; intros boxes; simpl.
  - now rewrite app_nil_r.
  - destruct (10 <? length (keypointsOf g b))%nat; rewrite IH; simpl; trivial.
    now rewrite <- app_assoc.
Qed.

Lemma updateCache_keypoints (fr : Frame) (config : Config) (acc : Outcome) (g : Globals) :
  keypoints (updateCache fr config acc g) = keypoints g
  /\ skipped (updateCache fr config acc g) = skipped g
  /\ model (updateCache fr config acc g) = model g.
Proof. unfold updateCache. destruct (skipFrame config); simpl; auto. Qed.

Lemma keypointsOf_same (g g' : Globals) (b : BodyResult.t) :
  keypoints g' = keypoints g -> keypointsOf g' b = keypointsOf g b.
Proof. unfold keypointsOf, deref. intros ->. reflexivity. Qed.

(** [predict] with a loaded model, step by step. *)
Lemma predict_ready (fr : Frame) (config : Config) (g : Globals) :
  modelReady g = true ->
  predict fr config g
  = (fst (detectFull fr config (fst (trackCached fr config g)) (snd (trackCached fr config g))),
     updateCache fr config
       (fst (detectFull fr config (fst (trackCached fr config g)) (snd (trackCached fr config g))))
       (snd (detectFull fr config (fst (trackCached fr config g)) (snd (trackCached fr config g))))).
Proof.
  intros H. unfold predict. rewrite H. simpl.
  destruct (trackCached fr config g) as [acc g3]. simpl.
  destruct (detectFull fr config acc g3) as [acc' g4]. reflexivity.
Qed.

Lemma predict_ran (fr : Frame) (config : Config) (g : Globals) :
  modelReady g = true ->
  ranFullFrame (fst (predict fr config g))
  = fullFrameDue config (fst (trackCached fr config g)) (snd (trackCached fr config g)).
Proof.
  intros H. rewrite (predict_ready fr config g H). simpl.
  apply detectFull_ran.
  destruct (trackCached_globals fr config g) as (_ & _ & _ & Hc).
  unfold ranFullFrame. rewrite Hc. apply existsb_crops.
Qed.

Lemma predict_model (fr : Frame) (config : Config) (g : Globals) :
  model (snd (predict fr config g)) = model g.
Proof.
  destruct (modelReady g) eqn:H.
  - rewrite (predict_ready fr config g H). simpl.
    destruct (updateCache_keypoints fr config
      (fst (detectFull fr config (fst (trackCached fr config g)) (snd (trackCached fr config g))))
      (snd (detectFull fr config (fst (trackCached fr config g)) (snd (trackCached fr config g)))))
      as (_ & _ & ->).
    destruct (trackCached_globals fr config g) as (Hm & _).
    unfold detectFull.
    destruct (fullFrameDue config (fst (trackCached fr config g)) (snd (trackCached fr config g)));
      trivial.
    pose proof (decode_globals (infer fr FullFrame) config (input fr) unitBox
                  (snd (trackCached fr config g))) as Hd.
    destruct (decode (infer fr FullFrame) config (input fr) unitBox
                (snd (trackCached fr config g))) as [nb g'].
    simpl in *. destruct Hd as (Hd & _). congruence.
  - unfold predict. rewrite H. reflexivity.
Qed.

End Frames.

(** ** Keypoints are filtered on their raw score *)

Section Filtering.
Context {collab : Collaborators}.

Lemma round2_slack (raw c : num) :
  ngt raw c = true -> ngt (round2 raw + Fin (1 # 200))%num c = true.
Proof.
  destruct raw as [x| | |].
  - rewrite round2_fin. cbn [nadd].
    destruct c as [y| | |]; cbn [ngt]; trivial.
    rewrite !Qlt_bool_iff. intros H.
    destruct (round2_close x) as [Hlo _].
    set (r := inject_Z (Qfloor (100 * x + (1 # 2))) / 100) in *.
    lra.
  - change (round2 PInf) with PInf. destruct c; trivial.
  - destruct c; discriminate.
  - destruct c; discriminate.
Qed.

Lemma singleLoop_kept (config : Config) (image : Tensor) (inputBox : Box)
    (kpt : list (list num)) :
  Forall (keptOf config (rawScores (SinglePose kpt)))
         (singleLoop config image inputBox 0 kpt []).
Proof.
  apply Forall_forall. intros kp H. apply singleLoop_In in H.
  destruct H as [id [row (Hrow & Hgt & ->)]].
  exists (get row 2). split; [| split; trivial].
  cbn [rawScores]. apply in_map_iff. exists row. auto.
Qed.

Lemma slotKeypoints_kept (config : Config) (image : Tensor) (inputBox : Box)
    (slots : list (list num)) (kpt : list num) :
  In kpt slots ->
  Forall (keptOf config (rawScores (MultiPose slots)))
         (slotKeypoints config image inputBox kpt).
Proof.
  intros Hin. apply Forall_forall. intros kp H. apply slotKeypoints_In in H.
  destruct H as [i (Hi & Hgt & ->)].
  exists (get kpt (3 * i + 2)). split; [| split; trivial].
  cbn [rawScores]. apply in_flat_map. exists kpt. split; trivial.
  apply in_map_iff. exists i. auto.
Qed.

Lemma decode_kept (res : RawOutput) (config : Config) (image : Tensor)
    (inputBox : Box) (g : Globals) :
  let r := decode res config image inputBox g in
  (keypoints (snd r) = keypoints g
   \/ Forall (keptOf config (rawScores res)) (keypoints (snd r)))
  /\ allKept (keptOf config (rawScores res)) (fst r) (snd r).
Proof.
  destruct res as [kpt | slots]; cbn [decode].
  - split.
    + right. apply singleLoop_kept.
    + intros b [<- | []]. apply singleLoop_kept.
  - split.
    + rewrite parseMultiPose_snd.
      destruct (multiLoop_snd config image inputBox slots 0 [] g)
        as (_ & _ & _ & [H | [kpt [Hin H]]]).
      * now left.
      * right. rewrite H. now apply slotKeypoints_kept.
    + intros b Hb. rewrite parseMultiPose_fst in Hb.
      apply In_firstn in Hb.
      apply (Permutation_in _ (sortBodies_perm _)) in Hb.
      apply emitted_In in Hb. destruct Hb as [id [kpt (Hnth & _ & ->)]].
      apply slotKeypoints_kept. eapply nth_error_In, Hnth.
Qed.

Lemma decode_allKept (fr : Frame) (region : Region) (config : Config) (image : Tensor)
    (inputBox : Box) (g : Globals) (bs : list BodyResult.t) :
  allKept (keptIn fr config) bs g ->
  allKept (keptIn fr config)
          (bs ++ fst (decode (infer fr region) config image inputBox g))
          (snd (decode (infer fr region) config image inputBox g)).
Proof.
  intros Hbs b Hb.
  destruct (decode_kept (infer fr region) config image inputBox g) as [Hk Hnew].
  assert (Himp : forall kp, keptOf config (rawScores (infer fr region)) kp
                            -> keptIn fr config kp)
    by (intros kp H; exists region; exact H).
  apply in_app_or in Hb. destruct Hb as [Hb | Hb].
  - specialize (Hbs b Hb). unfold keypointsOf, deref in *.
    destruct (BodyResult.keypoints b); trivial.
    destruct Hk as [-> | Hk]; trivial.
    eapply Forall_impl; [exact Himp | exact Hk].
  - eapply Forall_impl; [exact Himp | now apply Hnew].
Qed.

Lemma cachedLoop_allKept (fr : Frame) (config : Config) (boxes : list Box)
    (acc : Outcome) (g : Globals) :
  allKept (keptIn fr config) (bodies acc) g ->
  allKept (keptIn fr config) (bodies (fst (cachedLoop fr config boxes acc g)))
          (snd (cachedLoop fr config boxes acc g)).
Proof.
  revert acc g. induction boxes as [|b rest IH]; intros acc g H; simpl; trivial.
  pose proof (decode_allKept fr (Crop b) config (input fr) b g _ H) as Hd.
  destruct (decode (infer fr (Crop b)) config (input fr) b g) as [nb g'].
  apply IH. exact Hd.
Qed.

Lemma predict_allKept (fr : Frame) (config : Config) (g : Globals) :
  allKept (keptIn fr config) (bodies (fst (predict fr config g)))
          (snd (predict fr config g)).
Proof.
  destruct (modelReady g) eqn:Hready.
  2:{ unfold predict. rewrite Hready. simpl. intros b []. }
  rewrite (predict_ready fr config g Hready). simpl.
  set (t := trackCached fr config g).
  assert (Ht : allKept (keptIn fr config) (bodies (fst t)) (snd t)).
  { unfold t, trackCached. apply cachedLoop_allKept. intros b []. }
  assert (Hd : allKept (keptIn fr config)
                       (bodies (fst (detectFull fr config (fst t) (snd t))))
                       (snd (detectFull fr config (fst t) (snd t)))).
  { unfold detectFull. destruct (fullFrameDue config (fst t) (snd t)); trivial.
    pose proof (decode_allKept fr FullFrame config (input fr) unitBox (snd t) []) as Hnew.
    destruct (decode (infer fr FullFrame) config (input fr) unitBox (snd t)) as [nb g'].
    simpl in *. intros b Hb.
    assert (H0 : allKept (keptIn fr config) [] (snd t)) by (intros ? []).
    specialize (Hnew H0 b Hb).
    unfold keypointsOf, deref in *. destruct (BodyResult.keypoints b); trivial. }
  intros b Hb. specialize (Hd b Hb).
  erewrite keypointsOf_same; [exact Hd |].
  apply updateCache_keypoints.
Qed.

End Filtering.

(** * The claims *)

Section Claims.
Context {collab : Collaborators}.

Lemma createBox_nil : createBox [] = (emptyBox, emptyBox).
Proof. reflexivity. Qed.

(** C2 (as amended): when a decode retains no keypoint for a pose, the pose's
    [box] and [boxRaw] are both [(Infinity, Infinity, -Infinity, -Infinity)],
    the minima and maxima of an empty list, not a zero-size box at the
    origin. *)
Theorem zero_keypoints_box (res : RawOutput) (config : Config) (image : Tensor)
    (inputBox : Box) (g : Globals) (b : BodyResult.t) :
  In b (fst (decode res config image inputBox g)) ->
  keypointsOf (snd (decode res config image inputBox g)) b = [] ->
  BodyResult.box b = emptyBox /\ BodyResult.boxRaw b = emptyBox.
Proof.
  destruct res as [kpt | slots]; simpl.
  - intros [<- | []]. unfold keypointsOf. simpl. intros ->. auto.
  - intros Hb. rewrite parseMultiPose_fst in Hb.
    apply In_firstn in Hb.
    apply (Permutation_in _ (sortBodies_perm _)) in Hb.
    apply emitted_In in Hb. destruct Hb as [id [kpt (_ & _ & ->)]].
    unfold keypointsOf. simpl. intros ->. auto.
Qed.


Lemma keypointAt_mapper (image : Tensor) (inputBox : Box) (id : nat) (y x s : num) :
  (BodyKeypoint.positionRaw (keypointAt image inputBox id y x s),
   BodyKeypoint.position (keypointAt image inputBox id y x s))
  = CoordinateMapper inputBox (imageWidth image) (imageHeight image) y x.
Proof.
  destruct inputBox as [[[y0 x0] y1] x1].
  unfold keypointAt, CoordinateMapper, imageWidth, imageHeight.
  cbn [BodyKeypoint.positionRaw BodyKeypoint.position box0 box1 box2 box3 fst snd].
  do 2 f_equal; apply Math_round_nmul_comm.
Qed.

Lemma mapper_unit (w h y x : num) :
  snd (CoordinateMapper unitBox w h y x) = (Math_round (x * w)%num, Math_round (y * h)%num).
Proof.
  unfold CoordinateMapper, unitBox. cbn [snd].
  f_equal; apply Math_round_eq, nmul_eq_l, unit_affine.
Qed.


End Claims.

Section FrameClaims.
Context {collab : Collaborators}.

(** C3 (as amended): every keypoint of every returned pose was kept because
    its raw score, as the network reported it in one of the frame's
    inferences, strictly exceeds the configured minimum confidence; the score
    it stores is that raw score rounded to two decimals, which exceeds the
    threshold less 0.005 and may itself equal or fall below the threshold. *)
Theorem keypoints_filtered_on_raw_score (fr : Frame) (config : Config) (g : Globals)
    (b : BodyResult.t) (kp : BodyKeypoint.t) :
  In b (bodies (fst (predict fr config g))) ->
  In kp (keypointsOf (snd (predict fr config g)) b) ->
  exists region raw,
    In raw (rawScores (infer fr region))
    /\ ngt raw (minConfidence (body config)) = true
    /\ BodyKeypoint.score kp = round2 raw
    /\ ngt (BodyKeypoint.score kp + Fin (1 # 200))%num (minConfidence (body config)) = true.
Proof.
  intros Hb Hkp.
  pose proof (predict_allKept fr config g b Hb) as H.
  rewrite Forall_forall in H. destruct (H kp Hkp) as [region [raw (Hin & Hgt & Hs)]].
  exists region, raw. repeat split; trivial.
  rewrite Hs. apply round2_slack, Hgt.
Qed.

Lemma detectFull_globals (fr : Frame) (config : Config) (acc : Outcome) (g : Globals) :
  let r := detectFull fr config acc g in
  cachedBoxes (snd r) = (if fullFrameDue config acc g then [] else cachedBoxes g)
  /\ skipped (snd r) = (if fullFrameDue config acc g then 0%Z else skipped g)
  /\ bodies (fst r)
     = (if fullFrameDue config acc g
        then fst (decode (infer fr FullFrame) config (input fr) unitBox g)
        else bodies acc).
Proof.
  unfold detectFull. destruct (fullFrameDue config acc g); auto.
  destruct (decode (infer fr FullFrame) config (input fr) unitBox g) as [nb g'].
  simpl. auto.
Qed.

Lemma predict_skipped (fr : Frame) (config : Config) (g : Globals) :
  modelReady g = true ->
  skipped (snd (predict fr config g))
  = (if ranFullFrame (fst (predict fr config g)) then 0%Z else increment (skipped g)).
Proof.
  intros H. rewrite (predict_ran fr config g H).
  rewrite (predict_ready fr config g H). cbn [snd].
  match goal with |- context [updateCache fr config ?a ?h] =>
    destruct (updateCache_keypoints fr config a h) as (_ & -> & _) end.
  destruct (detectFull_globals fr config (fst (trackCached fr config g))
              (snd (trackCached fr config g))) as (_ & -> & _).
  destruct (trackCached_globals fr config g) as (_ & _ & -> & _).
  reflexivity.
Qed.

Lemma fullFrameDue_iff (config : Config) (acc : Outcome) (g : Globals) :
  fullFrameDue config acc g = true
  <-> length (bodies acc) <> maxDetected (body config)
      /\ (skipFrames (body config) < skipped g)%Z.
Proof.
  unfold fullFrameDue.
  rewrite andb_true_iff, negb_true_iff, Nat.eqb_neq, Z.ltb_lt. tauto.
Qed.

Lemma modelReady_model (g g' : Globals) : model g' = model g -> modelReady g' = modelReady g.
Proof. unfold modelReady. intros ->. reflexivity. Qed.

(** While the counter stays at or below the threshold no frame runs the
    full-frame detection, and each frame adds one to the counter. *)
Lemma run_below_threshold (config : Config) (frames : list Frame) (g : Globals) :
  modelReady g = true ->
  (0 <= skipped g)%Z ->
  (skipped g + Z.of_nat (length frames) <= skipFrames (body config))%Z ->
  (skipFrames (body config) < 2 ^ 53)%Z ->
  Forall (fun o => ranFullFrame o = false) (fst (run config frames g))
  /\ skipped (snd (run config frames g)) = (skipped g + Z.of_nat (length frames))%Z
  /\ modelReady (snd (run config frames g)) = true.
Proof.
  revert g. induction frames as [|fr rest IH]; intros g Hready H0 Hle HT.
  - simpl. rewrite Z.add_0_r. auto.
  - cbn [run]. cbn [length] in Hle. rewrite Nat2Z.inj_succ in Hle.
    assert (Hinc : increment (skipped g) = (skipped g + 1)%Z).
    { unfold increment. destruct (skipped g <? 2 ^ 53)%Z eqn:E; trivial.
      apply Z.ltb_ge in E. lia. }
    assert (Hran : ranFullFrame (fst (predict fr config g)) = false).
    { rewrite (predict_ran fr config g Hready).
      apply not_true_iff_false. rewrite fullFrameDue_iff.
      destruct (trackCached_globals fr config g) as (_ & _ & -> & _).
      rewrite Hinc. lia. }
    pose proof (predict_skipped fr config g Hready) as Hsk.
    rewrite Hran, Hinc in Hsk.
    pose proof (modelReady_model g _ (predict_model fr config g)) as Hm.
    rewrite Hready in Hm.
    destruct (predict fr config g) as [o g'].
    cbn [fst snd] in *.
    destruct (IH g' Hm) as (H1 & H2 & H3); [lia | lia | exact HT |].
    destruct (run config rest g') as [os g''].
    cbn [fst snd length] in *. split; [constructor; assumption |].
    split; [rewrite Nat2Z.inj_succ; lia | assumption].
Qed.

(** C7: with a loaded model, full-frame inference runs in a frame exactly
    when the number of poses accumulated from the cached regions differs from
    the configured maximum and the staleness counter, once incremented,
    exceeds the threshold; when it runs, the frame's results are those of the
    full-frame decode alone, the counter is reset to 0 and the cached regions
    are cleared before the cache is rebuilt.  Consequently, after a
    full-frame pass (counter 0) the next T frames run no full-frame
    inference, and frame T+1 runs it unless the accumulated count equals the
    maximum. *)
Theorem full_frame_rule (config : Config) (g : Globals) (fr : Frame)
    (g0 : Globals) (frames : list Frame) (next : Frame) :
  modelReady g = true ->
  modelReady g0 = true ->
  skipped g0 = 0%Z ->
  Z.of_nat (length frames) = skipFrames (body config) ->
  (skipFrames (body config) < 2 ^ 53)%Z ->
  let acc := fst (trackCached fr config g) in
  let g3 := snd (trackCached fr config g) in
  let r := predict fr config g in
  let quiet := run config frames g0 in
  (ranFullFrame (fst r) = true
   <-> length (bodies acc) <> maxDetected (body config)
       /\ (skipFrames (body config) < increment (skipped g))%Z)
  /\ (ranFullFrame (fst r) = true ->
      bodies (fst r) = fst (decode (infer fr FullFrame) config (input fr) unitBox g3)
      /\ skipped (snd r) = 0%Z
      /\ cachedBoxes (snd (detectFull fr config acc g3)) = [])
  /\ (ranFullFrame (fst r) = false ->
      bodies (fst r) = bodies acc /\ skipped (snd r) = increment (skipped g))
  /\ Forall (fun o => ranFullFrame o = false) (fst quiet)
  /\ skipped (snd quiet) = skipFrames (body config)
  /\ (ranFullFrame (fst (predict next config (snd quiet))) = true
      <-> length (bodies (fst (trackCached next config (snd quiet))))
          <> maxDetected (body config)).
Proof.
  intros Hready Hready0 Hzero Hlen HT acc g3 r quiet.
  assert (Hiff : ranFullFrame (fst r) = true
                 <-> length (bodies acc) <> maxDetected (body config)
                     /\ (skipFrames (body config) < increment (skipped g))%Z).
  { unfold r. rewrite (predict_ran fr config g Hready), fullFrameDue_iff.
    destruct (trackCached_globals fr config g) as (_ & _ & -> & _). reflexivity. }
  pose proof (predict_skipped fr config g Hready) as Hsk. fold r in Hsk.
  pose proof (predict_ran fr config g Hready) as Hran. fold r acc g3 in Hran.
  destruct (detectFull_globals fr config acc g3) as (Hcb & _ & Hbs).
  assert (Hbodies : bodies (fst r) = bodies (fst (detectFull fr config acc g3))).
  { unfold r. rewrite (predict_ready fr config g Hready). reflexivity. }
  destruct (run_below_threshold config frames g0 Hready0) as (Hq1 & Hq2 & Hq3);
    try lia.
  fold quiet in Hq1, Hq2, Hq3. rewrite Hzero, Z.add_0_l, Hlen in Hq2.
  split; [exact Hiff |].
  split.
  { intros Hr. rewrite Hr in Hsk. rewrite Hran in Hr. rewrite Hr in Hcb, Hbs.
    rewrite Hbodies. auto. }
  split.
  { intros Hr. rewrite Hr in Hsk. rewrite Hran in Hr. rewrite Hr in Hbs.
    rewrite Hbodies. auto. }
  split; [exact Hq1 |]. split; [exact Hq2 |].
  rewrite (predict_ran next config (snd quiet) Hq3), fullFrameDue_iff.
  destruct (trackCached_globals next config (snd quiet)) as (_ & _ & -> & _).
  rewrite Hq2.
  assert (Hinc : increment (skipFrames (body config)) = (skipFrames (body config) + 1)%Z).
  { unfold increment. destruct (skipFrames (body config) <? 2 ^ 53)%Z eqn:E; trivial.
    apply Z.ltb_ge in E. lia. }
  rewrite Hinc. split; [tauto | intros H; split; [exact H | lia]].
Qed.

(** C8 (as amended): with a loaded model and tracking enabled, the cached
    regions after a frame are, in order, the boxes the box-scaling
    collaborator returns (factor 1.5, dimensions [[shape[2], shape[1]]], in
    [yxBox] form) for the pixel keypoints of those returned poses that have
    more than 10 keypoints, so their number is the number of such poses;
    with tracking disabled the cached regions are empty. *)
Theorem cache_after_frame (fr : Frame) (config : Config) (g : Globals) :
  modelReady g = true ->
  let r := predict fr config g in
  let viable := filter (fun b => (10 <? length (keypointsOf (snd r) b))%nat)
                       (bodies (fst r)) in
  cachedBoxes (snd r)
  = (if skipFrame config
     then map (fun b => scale_yxBox (map BodyKeypoint.position (keypointsOf (snd r) b))
                                    (Fin 1.5)
                                    (shapeAt (input fr) 2, shapeAt (input fr) 1))
              viable
     else [])
  /\ length (cachedBoxes (snd r)) = (if skipFrame config then length viable else 0%nat).
Proof.
  intros Hready r viable.
  assert (H : cachedBoxes (snd r)
              = if skipFrame config
                then map (fun b => scale_yxBox
                                     (map BodyKeypoint.position (keypointsOf (snd r) b))
                                     (Fin 1.5)
                                     (shapeAt (input fr) 2, shapeAt (input fr) 1))
                         viable
                else []).
  { unfold viable, r. rewrite (predict_ready fr config g Hready). cbn [fst snd].
    set (acc := fst (trackCached fr config g)).
    set (g3 := snd (trackCached fr config g)).
    set (d := detectFull fr config acc g3).
    unfold updateCache. destruct (skipFrame config) eqn:Esk.
    - cbn [cachedBoxes set_cachedBoxes]. rewrite cacheLoop_eq. reflexivity.
    - subst d. destruct (detectFull_globals fr config acc g3) as (-> & _).
      destruct (fullFrameDue config acc g3); trivial.
      destruct (trackCached_globals fr config g) as (_ & H & _).
      unfold g3. rewrite H, Esk. reflexivity. }
  split; [exact H |].
  rewrite H. destruct (skipFrame config); trivial. apply length_map.
Qed.

Lemma trackCached_empty (fr : Frame) (config : Config) (g : Globals) :
  cachedBoxes g = [] ->
  bodies (fst (trackCached fr config g)) = [].
Proof.
  intros H. unfold trackCached.
  destruct (skipFrame config); cbn [negb cachedBoxes set_skipped set_cachedBoxes];
    try rewrite H; reflexivity.
Qed.

(** C10 (as amended): on the first frame after module load, with a loaded
    model, [predict] runs full-frame inference whatever the tracking flag,
    provided the configured maximum of detections is not 0 and the
    refresh-interval threshold is at most [Number.MAX_SAFE_INTEGER]: the
    counter starts there and the increment takes it to 2^53. *)
Theorem first_frame_runs_full (m : GraphModel) (fr : Frame) (config : Config) :
  modelReady (initial m) = true ->
  (1 <= maxDetected (body config))%nat ->
  (skipFrames (body config) <= MAX_SAFE_INTEGER)%Z ->
  ranFullFrame (fst (predict fr config (initial m))) = true.
Proof.
  intros Hready Hmax HT.
  rewrite (predict_ran fr config (initial m) Hready). apply fullFrameDue_iff.
  rewrite (trackCached_empty fr config (initial m) eq_refl).
  destruct (trackCached_globals fr config (initial m)) as (_ & _ & -> & _).
  split.
  - simpl. lia.
  - unfold MAX_SAFE_INTEGER in HT. change (increment (skipped (initial m)))
      with 9007199254740992%Z. lia.
Qed.


(** *** The score of a single pose *)

Lemma nge_refl (a : num) : a <> NaN -> nge a a.
Proof. destruct a; simpl; trivial; [intros _; apply Qle_refl | congruence]. Qed.

Lemma nge_antisym (a b : num) : nge a b -> nge b a -> num_eq a b.
Proof.
  destruct a, b; simpl; trivial.
  intros H1 H2. apply Qle_antisym; assumption.
Qed.

Lemma nge_not_nan (a b : num) : nge a b -> a <> NaN /\ b <> NaN.
Proof. destruct a, b; simpl; intros H; split; congruence || contradiction. Qed.

Lemma round2_nonneg (raw c : num) :
  ngt raw c = true -> ngt (Fin 0) raw = false -> nge (round2 raw) (Fin 0).
Proof.
  destruct raw as [x| | |].
  - intros _. cbn [ngt]. rewrite Qlt_bool_false_iff. intros Hx.
    rewrite round2_fin. cbn [nge].
    apply Qle_shift_div_l; [reflexivity |].
    rewrite Qmult_0_l. change 0 with (inject_Z 0). rewrite <- Zle_Qle.
    rewrite <- (Qfloor_Z 0). apply Qfloor_resp_le.
    change (inject_Z 0) with 0. lra.
  - intros _ _. exact I.
  - destruct c; discriminate.
  - destruct c; discriminate.
Qed.

Lemma maxScore_fold (ks : list BodyKeypoint.t) (acc : num) :
  acc <> NaN ->
  Forall (fun kp => BodyKeypoint.score kp <> NaN) ks ->
  let m := fold_left (fun prev curr =>
                        if ngt (BodyKeypoint.score curr) prev
                        then BodyKeypoint.score curr else prev) ks acc in
  nge m acc
  /\ (forall kp, In kp ks -> nge m (BodyKeypoint.score kp))
  /\ (m = acc \/ exists kp, In kp ks /\ m = BodyKeypoint.score kp).
Proof.
  revert acc. induction ks as [|x ks IH]; intros acc Hacc Hks; cbn [fold_left].
  - split; [now apply nge_refl |]. split; [intros kp [] | now left].
  - apply Forall_cons_iff in Hks. destruct Hks as [Hx Hks].
    set (acc' := if ngt (BodyKeypoint.score x) acc then BodyKeypoint.score x else acc).
    assert (Hacc' : acc' <> NaN) by (unfold acc'; destruct (ngt _ acc); assumption).
    assert (H1 : nge acc' acc).
    { unfold acc'. destruct (ngt (BodyKeypoint.score x) acc) eqn:E.
      - now apply ngt_nge.
      - now apply nge_refl. }
    assert (H2 : nge acc' (BodyKeypoint.score x)).
    { unfold acc'. destruct (ngt (BodyKeypoint.score x) acc) eqn:E.
      - now apply nge_refl.
      - now apply not_ngt_nge. }
    destruct (IH acc' Hacc' Hks) as (I1 & I2 & I3).
    split; [eapply nge_trans; eassumption |].
    split.
    + intros kp [<- | Hin]; [eapply nge_trans; eassumption | now apply I2].
    + destruct I3 as [-> | [kp [Hin Hm]]].
      * unfold acc'. destruct (ngt (BodyKeypoint.score x) acc).
        -- right. exists x. split; [now left | reflexivity].
        -- now left.
      * right. exists kp. split; [now right | exact Hm].
Qed.

(** The reduce of [parseSinglePose] yields the greatest of the stored scores
    when none of them is negative. *)
Lemma maxScore_greatest (ks : list BodyKeypoint.t) :
  Forall (fun kp => nge (BodyKeypoint.score kp) (Fin 0)) ks ->
  (forall kp, In kp ks -> nge (maxScore ks) (BodyKeypoint.score kp))
  /\ (ks <> [] -> exists kp, In kp ks /\ num_eq (maxScore ks) (BodyKeypoint.score kp)).
Proof.
  intros Hpos.
  assert (Hnan : Forall (fun kp => BodyKeypoint.score kp <> NaN) ks).
  { eapply Forall_impl; [| exact Hpos]. intros kp H. apply nge_not_nan in H. tauto. }
  assert (H0 : Fin 0 <> NaN) by discriminate.
  destruct (maxScore_fold ks (Fin 0) H0 Hnan) as (_ & H2 & H3).
  fold (maxScore ks) in H2, H3.
  split; [exact H2 |].
  intros Hne. destruct H3 as [Hm | [kp [Hin Hm]]].
  - destruct ks as [|x ks]; [congruence |]. exists x. split; [now left |].
    apply nge_antisym; [apply H2; now left |].
    rewrite Hm. apply Forall_inv in Hpos. exact Hpos.
  - exists kp. split; trivial. rewrite Hm. apply num_eq_refl.
Qed.

Lemma singleLoop_nonneg (config : Config) (image : Tensor) (inputBox : Box)
    (kpt : list (list num)) :
  validRows kpt ->
  Forall (fun kp => nge (BodyKeypoint.score kp) (Fin 0))
         (singleLoop config image inputBox 0 kpt []).
Proof.
  intros Hv. apply Forall_forall. intros kp H. apply singleLoop_In in H.
  destruct H as [id [row (Hrow & Hgt & ->)]].
  unfold validRows in Hv. rewrite Forall_forall in Hv.
  cbn [keypointAt BodyKeypoint.score].
  eapply round2_nonneg; [exact Hgt | now apply Hv].
Qed.

(** The cache a frame leaves holds at most one region per returned pose. *)
Lemma predict_cache_bound (fr : Frame) (config : Config) (g : Globals) :
  modelReady g = true ->
  (length (cachedBoxes (snd (predict fr config g)))
   <= length (bodies (fst (predict fr config g))))%nat.
Proof.
  intros Hready. rewrite (predict_ready fr config g Hready). cbn [fst snd].
  set (acc := fst (trackCached fr config g)).
  set (g3 := snd (trackCached fr config g)).
  unfold updateCache. destruct (skipFrame config) eqn:Esk.
  - cbn [cachedBoxes set_cachedBoxes]. rewrite cacheLoop_eq. cbn [app].
    rewrite length_map. apply filter_length_le.
  - destruct (detectFull_globals fr config acc g3) as (Hc & _). rewrite Hc.
    destruct (fullFrameDue config acc g3); [cbn; lia |].
    destruct (trackCached_globals fr config g) as (_ & H & _).
    unfold g3. rewrite H, Esk. cbn. lia.
Qed.

Lemma trackCached_single (fr : Frame) (config : Config) (g : Globals) :
  validSingle fr ->
  (length (cachedBoxes g) <= 1)%nat ->
  singleShape fr config (fst (trackCached fr config g)) (snd (trackCached fr config g)).
Proof.
  intros Hv Hlen. unfold trackCached.
  destruct (skipFrame config); cbn [negb cachedBoxes set_skipped set_cachedBoxes].
  - destruct (cachedBoxes g) as [|bx [|bx' rest]]; cbn [length] in Hlen; try lia.
    + left. auto.
    + right. cbn [cachedLoop]. destruct (Hv (Crop bx)) as [kpt [-> Hk]].
      exists kpt, bx. cbn. auto.
  - left. auto.
Qed.

Lemma predict_single (fr : Frame) (config : Config) (g : Globals) :
  validSingle fr ->
  (length (cachedBoxes g) <= 1)%nat ->
  singleShape fr config (fst (predict fr config g)) (snd (predict fr config g))
  /\ (length (cachedBoxes (snd (predict fr config g))) <= 1)%nat.
Proof.
  intros Hv Hlen.
  destruct (modelReady g) eqn:Hready.
  2:{ unfold predict. rewrite Hready. cbn. split; [left; auto | exact Hlen]. }
  assert (Hshape : singleShape fr config (fst (predict fr config g))
                               (snd (predict fr config g))).
  { rewrite (predict_ready fr config g Hready). cbn [fst snd].
    pose proof (trackCached_single fr config g Hv Hlen) as Ht.
    set (acc := fst (trackCached fr config g)) in *.
    set (g3 := snd (trackCached fr config g)) in *.
    assert (Hd : singleShape fr config (fst (detectFull fr config acc g3))
                             (snd (detectFull fr config acc g3))).
    { unfold detectFull. destruct (fullFrameDue config acc g3); trivial.
      destruct (Hv FullFrame) as [kpt [-> Hk]].
      right. exists kpt, unitBox. cbn. auto. }
    destruct Hd as [Hd | [kpt [bx (H1 & H2 & H3)]]]; [now left |].
    right. exists kpt, bx.
    match goal with |- context [updateCache fr config ?a ?h] =>
      destruct (updateCache_keypoints fr config a h) as (Hk & _) end.
    split; [exact H1 |]. split; [congruence | exact H3]. }
  split; [exact Hshape |].
  eapply Nat.le_trans; [apply (predict_cache_bound fr config g Hready) |].
  destruct Hshape as [[-> _] | [kpt [bx (_ & _ & ->)]]]; cbn; lia.
Qed.

Lemma run_single (config : Config) (frames : list Frame) (g : Globals) :
  Forall validSingle frames ->
  (length (cachedBoxes g) <= 1)%nat ->
  (length (cachedBoxes (snd (run config frames g))) <= 1)%nat.
Proof.
  revert g. induction frames as [|fr rest IH]; intros g Hv Hlen; cbn [run]; trivial.
  apply Forall_cons_iff in Hv. destruct Hv as [Hfr Hrest].
  destruct (predict_single fr config g Hfr Hlen) as [_ Hc].
  destruct (predict fr config g) as [o g']. cbn [snd] in Hc.
  specialize (IH g' Hrest Hc).
  destruct (run config rest g') as [os g'']. exact IH.
Qed.


End FrameClaims.

(** * Further properties of the code *)

Section Boxes.
Context {collab : Collaborators}.

Lemma min2_cases (a b : num) :
  a <> NaN -> b <> NaN ->
  (min2 a b = a \/ min2 a b = b) /\ nge a (min2 a b) /\ nge b (min2 a b).
Proof.
  intros Ha Hb.
  assert (E : min2 a b = if ngt a b then b else a)
    by (destruct a, b; trivial; congruence).
  rewrite E. destruct (ngt a b) eqn:G.
  - split; [now right |]. split; [now apply ngt_nge | now apply nge_refl].
  - split; [now left |]. split; [now apply nge_refl | now apply not_ngt_nge].
Qed.

Lemma max2_cases (a b : num) :
  a <> NaN -> b <> NaN ->
  (max2 a b = a \/ max2 a b = b) /\ nge (max2 a b) a /\ nge (max2 a b) b.
Proof.
  intros Ha Hb.
  assert (E : max2 a b = if ngt b a then b else a)
    by (destruct a, b; trivial; congruence).
  rewrite E. destruct (ngt b a) eqn:G.
  - split; [now right |]. split; [now apply ngt_nge | now apply nge_refl].
  - split; [now left |]. split; [now apply nge_refl | now apply not_ngt_nge].
Qed.

Lemma fold_min2 (xs : list num) (acc : num) :
  acc <> NaN -> Forall (fun x => x <> NaN) xs ->
  let m := fold_left min2 xs acc in
  (m = acc \/ In m xs) /\ nge acc m /\ forall x, In x xs -> nge x m.
Proof.
  revert acc. induction xs as [|x xs IH]; intros acc Hacc Hxs; cbn [fold_left].
  - split; [now left |]. split; [now apply nge_refl | intros x []].
  - apply Forall_cons_iff in Hxs. destruct Hxs as [Hx Hxs].
    destruct (min2_cases acc x Hacc Hx) as (Hc & H1 & H2).
    assert (Hm : min2 acc x <> NaN) by (destruct Hc as [-> | ->]; assumption).
    destruct (IH (min2 acc x) Hm Hxs) as (I1 & I2 & I3).
    split.
    + destruct I1 as [-> | I1]; [| right; now right].
      destruct Hc as [-> | ->]; [now left | right; now left].
    + split; [eapply nge_trans; eassumption |].
      intros y [<- | Hy]; [eapply nge_trans; eassumption | now apply I3].
Qed.

Lemma fold_max2 (xs : list num) (acc : num) :
  acc <> NaN -> Forall (fun x => x <> NaN) xs ->
  let m := fold_left max2 xs acc in
  (m = acc \/ In m xs) /\ nge m acc /\ forall x, In x xs -> nge m x.
Proof.
  revert acc. induction xs as [|x xs IH]; intros acc Hacc Hxs; cbn [fold_left].
  - split; [now left |]. split; [now apply nge_refl | intros x []].
  - apply Forall_cons_iff in Hxs. destruct Hxs as [Hx Hxs].
    destruct (max2_cases acc x Hacc Hx) as (Hc & H1 & H2).
    assert (Hm : max2 acc x <> NaN) by (destruct Hc as [-> | ->]; assumption).
    destruct (IH (max2 acc x) Hm Hxs) as (I1 & I2 & I3).
    split.
    + destruct I1 as [-> | I1]; [| right; now right].
      destruct Hc as [-> | ->]; [now left | right; now left].
    + split; [eapply nge_trans; eassumption |].
      intros y [<- | Hy]; [eapply nge_trans; eassumption | now apply I3].
Qed.

Lemma nge_PInf (x : num) : nge x PInf -> x = PInf.
Proof. destruct x; simpl; trivial; contradiction. Qed.

Lemma NInf_nge (x : num) : nge NInf x -> x = NInf.
Proof. destruct x; simpl; trivial; contradiction. Qed.

Lemma Math_min_least (xs : list num) :
  xs <> [] -> Forall (fun x => x <> NaN) xs ->
  In (Math_min xs) xs /\ forall x, In x xs -> nge x (Math_min xs).
Proof.
  intros Hne Hxs.
  assert (H0 : PInf <> NaN) by discriminate.
  destruct (fold_min2 xs PInf H0 Hxs) as (H1 & _ & H3).
  fold (Math_min xs) in H1, H3. split; [| exact H3].
  destruct H1 as [E | H1]; trivial.
  destruct xs as [|x xs]; [congruence |].
  assert (Hx : nge x (Math_min (x :: xs))) by (apply H3; now left).
  rewrite E in Hx. apply nge_PInf in Hx. rewrite E, <- Hx. now left.
Qed.

Lemma Math_max_greatest (xs : list num) :
  xs <> [] -> Forall (fun x => x <> NaN) xs ->
  In (Math_max xs) xs /\ forall x, In x xs -> nge (Math_max xs) x.
Proof.
  intros Hne Hxs.
  assert (H0 : NInf <> NaN) by discriminate.
  destruct (fold_max2 xs NInf H0 Hxs) as (H1 & _ & H3).
  fold (Math_max xs) in H1, H3. split; [| exact H3].
  destruct H1 as [E | H1]; trivial.
  destruct xs as [|x xs]; [congruence |].
  assert (Hx : nge (Math_max (x :: xs)) x) by (apply H3; now left).
  rewrite E in Hx. apply NInf_nge in Hx. rewrite E, <- Hx. now left.
Qed.

Lemma min_max_spans (xs : list num) :
  xs <> [] -> Forall (fun x => x <> NaN) xs ->
  spans xs (Math_min xs) (Math_max xs - Math_min xs)%num.
Proof.
  intros Hne Hxs.
  destruct (Math_min_least xs Hne Hxs) as [Hin Hle].
  destruct (Math_max_greatest xs Hne Hxs) as [Hin' Hge].
  split; [exact Hin |]. exists (Math_max xs). repeat split; auto.
Qed.

Lemma fold_min2_NaN (xs : list num) : fold_left min2 xs NaN = NaN.
Proof. induction xs as [|x xs IH]; cbn [fold_left]; trivial. Qed.

Lemma fold_max2_NaN (xs : list num) : fold_left max2 xs NaN = NaN.
Proof. induction xs as [|x xs IH]; cbn [fold_left]; trivial. Qed.

Lemma min2_NaN_r (a : num) : min2 a NaN = NaN.
Proof. destruct a; reflexivity. Qed.

Lemma max2_NaN_r (a : num) : max2 a NaN = NaN.
Proof. destruct a; reflexivity. Qed.

Lemma fold_min2_poisoned (xs : list num) (acc : num) :
  In NaN xs -> fold_left min2 xs acc = NaN.
Proof.
  revert acc. induction xs as [|x xs IH]; intros acc; cbn [fold_left].
  - intros [].
  - intros [-> | Hin]; [rewrite min2_NaN_r; apply fold_min2_NaN | now apply IH].
Qed.

Lemma fold_max2_poisoned (xs : list num) (acc : num) :
  In NaN xs -> fold_left max2 xs acc = NaN.
Proof.
  revert acc. induction xs as [|x xs IH]; intros acc; cbn [fold_left].
  - intros [].
  - intros [-> | Hin]; [rewrite max2_NaN_r; apply fold_max2_NaN | now apply IH].
Qed.

Lemma map_not_nil (A B : Type) (f : A -> B) (l : list A) : l <> [] -> map f l <> [].
Proof. destruct l; simpl; congruence. Qed.

(** X1: for a non-empty keypoint list none of whose coordinates is [NaN],
    [createBox] returns the tight bounds: the x and y of [box] are the least
    pixel coordinates and its width and height the distances to the greatest
    ones, and likewise [boxRaw] for the normalized coordinates. *)
Theorem createBox_tight (points : list BodyKeypoint.t) :
  points <> [] ->
  Forall (fun a => fst (BodyKeypoint.position a) <> NaN
                   /\ snd (BodyKeypoint.position a) <> NaN
                   /\ fst (BodyKeypoint.positionRaw a) <> NaN
                   /\ snd (BodyKeypoint.positionRaw a) <> NaN) points ->
  let box := fst (createBox points) in
  let boxRaw := snd (createBox points) in
  spans (map (fun a => fst (BodyKeypoint.position a)) points) (box0 box) (box2 box)
  /\ spans (map (fun a => snd (BodyKeypoint.position a)) points) (box1 box) (box3 box)
  /\ spans (map (fun a => fst (BodyKeypoint.positionRaw a)) points)
           (box0 boxRaw) (box2 boxRaw)
  /\ spans (map (fun a => snd (BodyKeypoint.positionRaw a)) points)
           (box1 boxRaw) (box3 boxRaw).
Proof.
  intros Hne Hall. cbn [createBox fst snd box0 box1 box2 box3].
  repeat split; try (apply min_max_spans; [now apply map_not_nil |];
    apply Forall_map; eapply Forall_impl; [| exact Hall]; cbn beta; tauto).
Qed.

(** X2: a [NaN] coordinate poisons the box: if the pixel x of some keypoint is
    [NaN], the x and the width of [box] are [NaN], and likewise for y and the
    height, and for [boxRaw]. *)
Theorem createBox_NaN (points : list BodyKeypoint.t) (a : BodyKeypoint.t) :
  In a points ->
  let box := fst (createBox points) in
  let boxRaw := snd (createBox points) in
  (fst (BodyKeypoint.position a) = NaN -> box0 box = NaN /\ box2 box = NaN)
  /\ (snd (BodyKeypoint.position a) = NaN -> box1 box = NaN /\ box3 box = NaN)
  /\ (fst (BodyKeypoint.positionRaw a) = NaN -> box0 boxRaw = NaN /\ box2 boxRaw = NaN)
  /\ (snd (BodyKeypoint.positionRaw a) = NaN -> box1 boxRaw = NaN /\ box3 boxRaw = NaN).
Proof.
  intros Hin. cbn [createBox fst snd box0 box1 box2 box3].
  assert (P : forall f : BodyKeypoint.t -> num,
             f a = NaN -> Math_min (map f points) = NaN
                          /\ (Math_max (map f points) - Math_min (map f points))%num = NaN).
  { intros f Hf.
    assert (Hnan : In NaN (map f points)) by (rewrite <- Hf; now apply in_map).
    unfold Math_min, Math_max.
    rewrite (fold_min2_poisoned _ PInf Hnan), (fold_max2_poisoned _ NInf Hnan).
    split; reflexivity. }
  split; [exact (P (fun k => fst (BodyKeypoint.position k))) |].
  split; [exact (P (fun k => snd (BodyKeypoint.position k))) |].
  split; [exact (P (fun k => fst (BodyKeypoint.positionRaw k))) |].
  exact (P (fun k => snd (BodyKeypoint.positionRaw k))).
Qed.

End Boxes.

(** ** An unavailable model *)

Section Unavailable.
Context {collab : Collaborators}.

(** X3: while no model with an input shape is loaded, [predict] resolves to
    no pose, runs no inference and leaves every module-level variable as it
    was (the counter is not incremented, the cache is not cleared), for any
    number of frames. *)
Theorem predict_without_model (config : Config) (frames : list Frame) (g : Globals) :
  modelReady g = false ->
  run config frames g = (map (fun _ => {| bodies := []; calls := [] |}) frames, g).
Proof.
  intros H. induction frames as [|fr rest IH]; cbn [run map]; trivial.
  unfold predict. rewrite H. cbn [negb]. rewrite IH. reflexivity.
Qed.

End Unavailable.

(** ** Annotations *)

Section Skeleton.
Context {collab : Collaborators}.

Lemma findPart_Some (ks : list BodyKeypoint.t) (name : string) (pt : BodyKeypoint.t) :
  findPart ks name = Some pt -> In pt ks /\ BodyKeypoint.part pt = Some name.
Proof.
  unfold findPart. intros H. apply find_some in H. destruct H as [Hin Hp].
  split; trivial.
  destruct (BodyKeypoint.part pt) as [p|]; [| discriminate].
  apply String.eqb_eq in Hp. now subst.
Qed.

Lemma segments_joins (config : Config) (ks : list BodyKeypoint.t)
    (indexes : list string) (seg : Point * Point) :
  In seg (segments ks (minConfidence (body config)) indexes) ->
  joins config ks indexes seg.
Proof.
  induction indexes as [|a rest IH]; cbn [segments]; [intros [] |].
  destruct rest as [|b rest]; [intros [] |].
  intros H. apply in_app_or in H. destruct H as [H | H].
  - destruct (findPart ks a) as [pt0|] eqn:E0; [| destruct H].
    destruct (findPart ks b) as [pt1|] eqn:E1; [| destruct H].
    destruct (ngt (BodyKeypoint.score pt0) (or0 (minConfidence (body config)))) eqn:G0;
      [| destruct H].
    destruct (ngt (BodyKeypoint.score pt1) (or0 (minConfidence (body config)))) eqn:G1;
      [| destruct H].
    cbn in H. destruct H as [<- | []].
    apply findPart_Some in E0, E1.
    exists a, b, pt0, pt1, [], rest. cbn. tauto.
  - destruct (IH H) as (a' & b' & pt0 & pt1 & before & after & Hidx & Hrest).
    exists a', b', pt0, pt1, (a :: before), after. rewrite Hidx. cbn. tauto.
Qed.

Lemma segments_length (ks : list BodyKeypoint.t) (c : num) (indexes : list string) :
  (length (segments ks c indexes) <= length indexes - 1)%nat.
Proof.
  induction indexes as [|a rest IH]; cbn [segments]; [cbn; lia |].
  destruct rest as [|b rest]; [cbn; lia |].
  rewrite length_app.
  assert (H : (length (match findPart ks a, findPart ks b with
                       | Some pt0, Some pt1 =>
                           if ngt (BodyKeypoint.score pt0) (or0 c)
                              && ngt (BodyKeypoint.score pt1) (or0 c)
                           then [(BodyKeypoint.position pt0, BodyKeypoint.position pt1)]
                           else []
                       | _, _ => []
                       end) <= 1)%nat).
  { destruct (findPart ks a), (findPart ks b); cbn; try lia.
    destruct (_ && _); cbn; lia. }
  cbn [length] in *. lia.
Qed.

Lemma decode_annotations (res : RawOutput) (config : Config) (image : Tensor)
    (inputBox : Box) (g : Globals) (b : BodyResult.t) :
  In b (fst (decode res config image inputBox g)) ->
  BodyResult.annotations b
  = annotate (keypointsOf (snd (decode res config image inputBox g)) b) config.
Proof.
  destruct res as [kpt | slots]; cbn [decode].
  - rewrite parseSinglePose_eq. cbn [fst snd]. intros [<- | []]. reflexivity.
  - intros Hb. rewrite parseMultiPose_fst in Hb.
    apply In_firstn in Hb.
    apply (Permutation_in _ (sortBodies_perm _)) in Hb.
    apply emitted_In in Hb. destruct Hb as [id [kpt (_ & _ & ->)]]. reflexivity.
Qed.

(** X4: every result of a decode lists every chain of the connectivity table,
    in the table's order, also the chains for which no segment could be
    drawn; a chain of n part names gets at most n - 1 segments. *)
Theorem annotations_list_every_chain (res : RawOutput) (config : Config)
    (image : Tensor) (inputBox : Box) (g : Globals) (b : BodyResult.t) :
  In b (fst (decode res config image inputBox g)) ->
  map fst (BodyResult.annotations b) = map fst coords_connected
  /\ Forall2 (fun entry chain =>
                (length (snd entry) <= length (snd chain) - 1)%nat)
             (BodyResult.annotations b) coords_connected.
Proof.
  intros Hb. rewrite (decode_annotations res config image inputBox g b Hb).
  unfold annotate. split.
  - rewrite map_map. apply map_ext. intros [name indexes]. reflexivity.
  - induction coords_connected as [|[name indexes] rest IH]; cbn [map]; constructor.
    + cbn [snd]. apply segments_length.
    + exact IH.
Qed.

(** X5: every segment of every chain of a decode's result joins the pixel
    positions of two keypoints of that result whose parts are neighbours in
    the chain and whose stored (rounded) scores both exceed
    [minConfidence || 0]. *)
Theorem annotation_segments_join_keypoints (res : RawOutput) (config : Config)
    (image : Tensor) (inputBox : Box) (g : Globals) (b : BodyResult.t)
    (name : string) (segs : list (Point * Point)) (seg : Point * Point) :
  In b (fst (decode res config image inputBox g)) ->
  In (name, segs) (BodyResult.annotations b) ->
  In seg segs ->
  exists indexes,
    In (name, indexes) coords_connected
    /\ joins config (keypointsOf (snd (decode res config image inputBox g)) b) indexes seg.
Proof.
  intros Hb Hentry Hseg.
  rewrite (decode_annotations res config image inputBox g b Hb) in Hentry.
  unfold annotate in Hentry. apply in_map_iff in Hentry.
  destruct Hentry as [[name' indexes] [E Hin]].
  inversion E; subst. exists indexes. split; trivial.
  now apply segments_joins.
Qed.

End Skeleton.

(** ** Results and the shared buffer *)

Section Buffer.
Context {collab : Collaborators}.

Lemma multi_result_owned (slots : list (list num)) (config : Config) (image : Tensor)
    (inputBox : Box) (g : Globals) (b : BodyResult.t) :
  In b (fst (parseMultiPose slots config image inputBox g)) ->
  exists id kpt,
    nth_error slots id = Some kpt
    /\ ngt (totalScore kpt) (minConfidence (body config)) = true
    /\ b = slotBody config image inputBox id kpt.
Proof.
  intros Hb. rewrite parseMultiPose_fst in Hb.
  apply In_firstn in Hb.
  apply (Permutation_in _ (sortBodies_perm _)) in Hb.
  now apply emitted_In in Hb.
Qed.

(** X6: a result of a multi-pose decode holds a copy of its keypoints: they
    are the same whatever the module-level variables hold afterwards, so no
    later decode or frame changes them. *)
Theorem multi_pose_keypoints_are_copied (slots : list (list num)) (config : Config)
    (image : Tensor) (inputBox : Box) (g : Globals) (b : BodyResult.t)
    (later later' : Globals) :
  In b (fst (decode (MultiPose slots) config image inputBox g)) ->
  keypointsOf later b = keypointsOf later' b.
Proof.
  cbn [decode]. intros Hb. apply multi_result_owned in Hb.
  destruct Hb as [id [kpt (_ & _ & ->)]]. reflexivity.
Qed.

(** X7: every result of a multi-pose decode has a score, the aggregate score
    rounded to two decimals, that strictly exceeds the configured minimum
    confidence. *)
Theorem multi_pose_score_above_threshold (slots : list (list num)) (config : Config)
    (image : Tensor) (inputBox : Box) (g : Globals) (b : BodyResult.t) :
  In b (fst (decode (MultiPose slots) config image inputBox g)) ->
  ngt (BodyResult.score b) (minConfidence (body config)) = true.
Proof.
  cbn [decode]. intros Hb. apply multi_result_owned in Hb.
  destruct Hb as [id [kpt (_ & Hgt & ->)]]. exact Hgt.
Qed.

Lemma multiLoop_none (config : Config) (image : Tensor) (inputBox : Box)
    (slots : list (list num)) (id : nat) (acc : list BodyResult.t) (g : Globals) :
  Forall (fun kpt => ngt (totalScore kpt) (minConfidence (body config)) = false) slots ->
  multiLoop config image inputBox id slots acc g = (acc, g).
Proof.
  revert id. induction slots as [|kpt rest IH]; intros id H; cbn [multiLoop]; trivial.
  apply Forall_cons_iff in H. destruct H as [-> H]. now apply IH.
Qed.

(** X8: when no slot of a multi-pose output passes the filter (in particular
    when there is no slot), the decode returns no pose and leaves the
    module-level variables, the shared keypoint buffer included, as they
    were. *)
Theorem multi_pose_nothing_passes (slots : list (list num)) (config : Config)
    (image : Tensor) (inputBox : Box) (g : Globals) :
  Forall (fun kpt => ngt (totalScore kpt) (minConfidence (body config)) = false) slots ->
  decode (MultiPose slots) config image inputBox g = ([], g).
Proof.
  intros H. cbn [decode]. unfold parseMultiPose.
  rewrite (multiLoop_none config image inputBox slots 0 [] g H).
  rewrite truncate_firstn. cbn [sortBodies]. now rewrite firstn_nil.
Qed.

Lemma survivors_length (config : Config) (slots : list (list num)) (id0 : nat) :
  length (survivors config id0 slots)
  = length (filter (fun kpt => ngt (totalScore kpt) (minConfidence (body config))) slots).
Proof.
  unfold survivors. revert id0.
  induction slots as [|kpt rest IH]; intros id0; cbn [length seq combine filter snd]; trivial.
  destruct (ngt (totalScore kpt) (minConfidence (body config))); cbn [length];
    now rewrite IH.
Qed.

(** X9: a multi-pose decode returns as many poses as slots pass the filter,
    but no more than the configured maximum. *)
Theorem multi_pose_count (slots : list (list num)) (config : Config)
    (image : Tensor) (inputBox : Box) (g : Globals) :
  length (fst (decode (MultiPose slots) config image inputBox g))
  = Nat.min (maxDetected (body config))
            (length (filter (fun kpt => ngt (totalScore kpt) (minConfidence (body config)))
                            slots)).
Proof.
  cbn [decode]. rewrite parseMultiPose_fst, length_firstn, sortBodies_length.
  unfold emitted. now rewrite length_map, survivors_length.
Qed.

Lemma decode_fst_state (res : RawOutput) (config : Config) (image : Tensor)
    (inputBox : Box) (g g' : Globals) :
  fst (decode res config image inputBox g) = fst (decode res config image inputBox g').
Proof.
  destruct res as [kpt | slots]; cbn [decode].
  - reflexivity.
  - now rewrite !parseMultiPose_fst.
Qed.

(** X10: what a decode returns, and the keypoints its results denote when it
    returns, do not depend on what the module-level variables held before:
    nothing left in the shared buffer by an earlier decode shows in them. *)
Theorem decode_ignores_earlier_state (res : RawOutput) (config : Config)
    (image : Tensor) (inputBox : Box) (g g' : Globals) :
  fst (decode res config image inputBox g) = fst (decode res config image inputBox g')
  /\ map (keypointsOf (snd (decode res config image inputBox g)))
         (fst (decode res config image inputBox g))
     = map (keypointsOf (snd (decode res config image inputBox g')))
           (fst (decode res config image inputBox g')).
Proof.
  split; [apply decode_fst_state |].
  rewrite (decode_fst_state res config image inputBox g g').
  apply map_ext_in. intros b Hb.
  destruct res as [kpt | slots].
  - cbn [decode] in *. rewrite parseSinglePose_eq in Hb. cbn [fst] in Hb.
    destruct Hb as [<- | []]. reflexivity.
  - cbn [decode] in Hb. apply multi_result_owned in Hb.
    destruct Hb as [id [kpt (_ & _ & ->)]]. reflexivity.
Qed.

End Buffer.

(** ** The composition of a frame *)

Section Composition.
Context {collab : Collaborators}.

Lemma cachedLoop_bodies (fr : Frame) (config : Config) (boxes : list Box)
    (acc : Outcome) (g g0 : Globals) :
  bodies (fst (cachedLoop fr config boxes acc g))
  = bodies acc
    ++ flat_map (fun b => fst (decode (infer fr (Crop b)) config (input fr) b g0)) boxes.
Proof.
  revert acc g. induction boxes as [|b rest IH]; intros acc g; cbn [cachedLoop flat_map].
  - now rewrite app_nil_r.
  - pose proof (decode_fst_state (infer fr (Crop b)) config (input fr) b g g0) as E.
    destruct (decode (infer fr (Crop b)) config (input fr) b g) as [nb g'].
    cbn [fst] in E. rewrite IH. cbn [bodies]. rewrite <- app_assoc, E. reflexivity.
Qed.

Lemma detectFull_calls (fr : Frame) (config : Config) (acc : Outcome) (g : Globals) :
  calls (fst (detectFull fr config acc g))
  = calls acc ++ (if fullFrameDue config acc g then [FullFrame] else []).
Proof.
  unfold detectFull. destruct (fullFrameDue config acc g).
  - destruct (decode (infer fr FullFrame) config (input fr) unitBox g). reflexivity.
  - now rewrite app_nil_r.
Qed.

Lemma predict_calls (fr : Frame) (config : Config) (g : Globals) :
  modelReady g = true ->
  calls (fst (predict fr config g))
  = map Crop (if skipFrame config then cachedBoxes g else [])
    ++ (if ranFullFrame (fst (predict fr config g)) then [FullFrame] else []).
Proof.
  intros Hready. rewrite (predict_ran fr config g Hready).
  rewrite (predict_ready fr config g Hready). cbn [fst].
  rewrite detectFull_calls.
  destruct (trackCached_globals fr config g) as (_ & Hc & _ & ->).
  now rewrite Hc.
Qed.

Lemma predict_bodies (fr : Frame) (config : Config) (g : Globals) :
  modelReady g = true ->
  bodies (fst (predict fr config g))
  = if ranFullFrame (fst (predict fr config g))
    then fst (decode (infer fr FullFrame) config (input fr) unitBox g)
    else flat_map (fun b => fst (decode (infer fr (Crop b)) config (input fr) b g))
                  (if skipFrame config then cachedBoxes g else []).
Proof.
  intros Hready. rewrite (predict_ran fr config g Hready).
  rewrite (predict_ready fr config g Hready). cbn [fst].
  destruct (detectFull_globals fr config (fst (trackCached fr config g))
              (snd (trackCached fr config g))) as (_ & _ & ->).
  destruct (fullFrameDue config (fst (trackCached fr config g))
              (snd (trackCached fr config g))).
  - apply decode_fst_state.
  - unfold trackCached. rewrite (cachedLoop_bodies fr config _ _ _ g).
    cbn [bodies app cachedBoxes set_skipped].
    destruct (skipFrame config); reflexivity.
Qed.

(** X11: with a loaded model a frame runs one inference per cached region,
    in cache order (none when tracking is disabled), and after them at most
    one full-frame inference; the poses it returns are those of the
    full-frame decode alone when that inference ran, and otherwise the poses
    of the decodes of the cached regions, concatenated in cache order. *)
Theorem frame_composition (fr : Frame) (config : Config) (g : Globals) :
  modelReady g = true ->
  let regions := if skipFrame config then cachedBoxes g else [] in
  let out := fst (predict fr config g) in
  calls out = map Crop regions ++ (if ranFullFrame out then [FullFrame] else [])
  /\ bodies out
     = if ranFullFrame out
       then fst (decode (infer fr FullFrame) config (input fr) unitBox g)
       else flat_map (fun b => fst (decode (infer fr (Crop b)) config (input fr) b g))
                     regions.
Proof.
  intros Hready regions out. split.
  - apply predict_calls, Hready.
  - apply predict_bodies, Hready.
Qed.

Lemma decode_length (res : RawOutput) (config : Config) (image : Tensor)
    (inputBox : Box) (g : Globals) :
  (length (fst (decode res config image inputBox g))
   <= Nat.max 1 (maxDetected (body config)))%nat.
Proof.
  destruct res as [kpt | slots]; cbn [decode].
  - rewrite parseSinglePose_eq. cbn [fst length]. lia.
  - rewrite parseMultiPose_fst.
    pose proof (firstn_le_length (maxDetected (body config))
                  (sortBodies (emitted config image inputBox 0 slots))).
    lia.
Qed.

Lemma flat_map_length_le (A B : Type) (f : A -> list B) (l : list A) (m : nat) :
  (forall a, length (f a) <= m)%nat ->
  (length (flat_map f l) <= length l * m)%nat.
Proof.
  intros Hf. induction l as [|a l IH]; cbn [flat_map length]; [lia |].
  rewrite length_app. specialize (Hf a). lia.
Qed.

(** X12: a frame returns at most max(1, maxDetected) poses for each region it
    inferred on: that many when the full-frame inference ran, and otherwise
    that many times the number of cached regions. *)
Theorem poses_per_frame_bound (fr : Frame) (config : Config) (g : Globals) :
  (length (bodies (fst (predict fr config g)))
   <= (if ranFullFrame (fst (predict fr config g)) then 1 else length (cachedBoxes g))
      * Nat.max 1 (maxDetected (body config)))%nat.
Proof.
  destruct (modelReady g) eqn:Hready.
  2:{ unfold predict. rewrite Hready. cbn. lia. }
  rewrite (predict_bodies fr config g Hready).
  destruct (ranFullFrame (fst (predict fr config g))).
  - pose proof (decode_length (infer fr FullFrame) config (input fr) unitBox g). lia.
  - eapply Nat.le_trans.
    + apply flat_map_length_le. intros b. apply decode_length.
    + destruct (skipFrame config); cbn [length]; lia.
Qed.

Lemma decode_single_shared (fr : Frame) (region : Region) (config : Config)
    (image : Tensor) (inputBox : Box) (g : Globals) (b : BodyResult.t) :
  singleModel fr ->
  In b (fst (decode (infer fr region) config image inputBox g)) ->
  BodyResult.keypoints b = SharedBuffer.
Proof.
  intros Hm. destruct (Hm region) as [kpt ->]. cbn [decode].
  rewrite parseSinglePose_eq. cbn [fst]. intros [<- | []]. reflexivity.
Qed.

(** X13: on a single-pose model all the poses a frame returns denote one and
    the same keypoint array, the module-level buffer as the last decode left
    it, whichever region each pose was decoded from. *)
Theorem single_pose_results_share_keypoints (fr : Frame) (config : Config) (g : Globals)
    (b b' : BodyResult.t) :
  singleModel fr ->
  In b (bodies (fst (predict fr config g))) ->
  In b' (bodies (fst (predict fr config g))) ->
  keypointsOf (snd (predict fr config g)) b = keypoints (snd (predict fr config g))
  /\ keypointsOf (snd (predict fr config g)) b
     = keypointsOf (snd (predict fr config g)) b'.
Proof.
  intros Hm.
  assert (Hshared : forall x, In x (bodies (fst (predict fr config g))) ->
                              BodyResult.keypoints x = SharedBuffer).
  { destruct (modelReady g) eqn:Hready.
    2:{ unfold predict. rewrite Hready. cbn. intros x []. }
    intros x Hx. rewrite (predict_bodies fr config g Hready) in Hx.
    destruct (ranFullFrame (fst (predict fr config g))).
    - now apply (decode_single_shared fr FullFrame config (input fr) unitBox g).
    - apply in_flat_map in Hx. destruct Hx as [bx [_ Hx]].
      now apply (decode_single_shared fr (Crop bx) config (input fr) bx g). }
  intros Hb Hb'. unfold keypointsOf.
  rewrite (Hshared b Hb), (Hshared b' Hb'). split; reflexivity.
Qed.

End Composition.

(** ** The keypoints of a result *)

Section Keypoints.
Context {collab : Collaborators}.

Lemma StronglySorted_seq (a n : nat) : StronglySorted lt (seq a n).
Proof.
  revert a. induction n as [|n IH]; intros a; cbn [seq]; constructor.
  - apply IH.
  - apply Forall_forall. intros x Hx. apply in_seq in Hx. lia.
Qed.

Lemma StronglySorted_map_filter (A : Type) (key : A -> nat) (keep : A -> bool)
    (l : list A) :
  StronglySorted lt (map key l) -> StronglySorted lt (map key (filter keep l)).
Proof.
  induction l as [|x l IH]; cbn [map filter]; intros H; trivial.
  apply StronglySorted_inv in H. destruct H as [Hl Hx].
  destruct (keep x); cbn [map]; auto.
  constructor; auto.
  rewrite Forall_forall in *. intros y Hy. apply Hx.
  apply in_map_iff in Hy. destruct Hy as [z [<- Hz]].
  apply filter_In in Hz. apply in_map. tauto.
Qed.

Lemma combine_seq_length (A : Type) (l : list A) (a : nat) :
  length (combine (seq a (length l)) l) = length l.
Proof. rewrite length_combine, length_seq. apply Nat.min_id. Qed.

Lemma decode_keypoints_slots (res : RawOutput) (config : Config) (image : Tensor)
    (inputBox : Box) (g : Globals) (b : BodyResult.t) :
  In b (fst (decode res config image inputBox g)) ->
  exists (ids : list nat) (values : nat -> num * num * num),
    keypointsOf (snd (decode res config image inputBox g)) b
    = map (fun i => keypointAt image inputBox i (fst (fst (values i)))
                               (snd (fst (values i))) (snd (values i))) ids
    /\ StronglySorted lt ids
    /\ Forall (fun i => i < slotCount res)%nat ids
    /\ (length ids <= slotCount res)%nat.
Proof.
  destruct res as [kpt | slots]; cbn [decode slotCount].
  - rewrite parseSinglePose_eq. cbn [fst snd]. intros [<- | []].
    unfold keypointsOf. cbn [BodyResult.keypoints deref keypoints set_keypoints].
    rewrite singleLoop_eq. cbn [app].
    set (kept := filter (fun s => ngt (get (snd s) 2) (minConfidence (body config)))
                        (combine (seq 0 (length kpt)) kpt)).
    exists (map fst kept),
           (fun i => (get (nth i kpt []) 0, get (nth i kpt []) 1, get (nth i kpt []) 2)).
    split; [| split; [| split]].
    + rewrite map_map. apply map_ext_in. intros [i row] Hin. cbn [fst snd].
      apply filter_In in Hin. destruct Hin as [Hin _].
      apply in_combine_seq in Hin. destruct Hin as [j [-> Hj]]. cbn [Nat.add].
      now rewrite (nth_error_nth _ _ _ Hj).
    + apply StronglySorted_map_filter. rewrite map_fst_combine_seq.
      apply StronglySorted_seq.
    + apply Forall_forall. intros i Hi. apply in_map_iff in Hi.
      destruct Hi as [[i' row] [<- Hin]]. apply filter_In in Hin.
      destruct Hin as [Hin _]. apply in_combine_l, in_seq in Hin. cbn [fst]. lia.
    + rewrite length_map. eapply Nat.le_trans; [apply filter_length_le |].
      now rewrite combine_seq_length.
  - intros Hb. apply multi_result_owned in Hb.
    destruct Hb as [id [slot (_ & _ & ->)]].
    unfold keypointsOf. cbn [slotBody BodyResult.keypoints deref].
    rewrite slotKeypoints_eq.
    set (kept := filter (fun i => ngt (get slot (3 * i + 2)) (minConfidence (body config)))
                        (seq 0 17)).
    exists kept,
           (fun i => (get slot (3 * i + 0), get slot (3 * i + 1), get slot (3 * i + 2))).
    split; [reflexivity |]. split; [| split].
    + rewrite <- (map_id kept). apply StronglySorted_map_filter. rewrite map_id.
      apply StronglySorted_seq.
    + apply Forall_forall. intros i Hi. apply filter_In in Hi.
      destruct Hi as [Hi _]. apply in_seq in Hi. lia.
    + eapply Nat.le_trans; [apply filter_length_le |]. now rewrite length_seq.
Qed.

(** X14: the keypoints of a decoded pose follow the part slots of the raw
    output: their parts are the entries of the part table at strictly
    increasing slot indices below the number of slots (17 for a multi-pose
    output, the number of rows for a single-pose one), so a pose has at most
    one keypoint per slot and never more keypoints than slots. *)
Theorem keypoints_follow_part_slots (res : RawOutput) (config : Config)
    (image : Tensor) (inputBox : Box) (g : Globals) (b : BodyResult.t) :
  In b (fst (decode res config image inputBox g)) ->
  let ks := keypointsOf (snd (decode res config image inputBox g)) b in
  (length ks <= slotCount res)%nat
  /\ exists ids,
       map BodyKeypoint.part ks = map (nth_error coords_kpt) ids
       /\ StronglySorted lt ids
       /\ Forall (fun i => i < slotCount res)%nat ids.
Proof.
  intros Hb ks.
  destruct (decode_keypoints_slots res config image inputBox g b Hb)
    as (ids & values & Hks & Hsorted & Hbound & Hlen).
  fold ks in Hks. split.
  - rewrite Hks, length_map. exact Hlen.
  - exists ids. split; [| split; assumption].
    rewrite Hks, map_map. reflexivity.
Qed.

Lemma Qfloor_half (x : Q) :
  x - (1 # 2) < inject_Z (Qfloor (x + (1 # 2)))
  /\ inject_Z (Qfloor (x + (1 # 2))) <= x + (1 # 2).
Proof.
  pose proof (Qfloor_le (x + (1 # 2))) as Hle.
  pose proof (Qlt_floor (x + (1 # 2))) as Hlt.
  rewrite inject_Z_plus in Hlt. change (inject_Z 1) with 1 in Hlt.
  set (n := inject_Z (Qfloor (x + (1 # 2)))) in *.
  split; lra.
Qed.


End Keypoints.

(** ** The time stamp of [log] *)

Section TimeStamp.

Lemma padded_two (n : nat) :
  (n < 100)%nat ->
  exists c1 c2, padStart 2 (toString n) = String c1 (String c2 EmptyString)
                /\ readNat (String c1 (String c2 EmptyString)) = Some n.
Proof.
  intros Hn.
  assert (Hall : forallb (fun k =>
                   match padStart 2 (toString k) with
                   | String c1 (String c2 EmptyString) =>
                       match readNat (String c1 (String c2 EmptyString)) with
                       | Some r => Nat.eqb r k
                       | None => false
                       end
                   | _ => false
                   end) (seq 0 100) = true) by (vm_compute; reflexivity).
  rewrite forallb_forall in Hall.
  assert (Hin : In n (seq 0 100)) by (apply in_seq; lia).
  specialize (Hall n Hin).
  destruct (padStart 2 (toString n)) as [|c1 [|c2 [|c3 rest]]]; try discriminate.
  exists c1, c2. split; trivial.
  destruct (readNat (String c1 (String c2 EmptyString))) as [r|]; [| discriminate].
  apply Nat.eqb_eq in Hall. now subst.
Qed.

Lemma padded_three (n : nat) :
  (n < 1000)%nat ->
  exists c1 c2 c3,
    padStart 3 (toString n) = String c1 (String c2 (String c3 EmptyString))
    /\ readNat (String c1 (String c2 (String c3 EmptyString))) = Some n.
Proof.
  intros Hn.
  assert (Hall : forallb (fun k =>
                   match padStart 3 (toString k) with
                   | String c1 (String c2 (String c3 EmptyString)) =>
                       match readNat (String c1 (String c2 (String c3 EmptyString))) with
                       | Some r => Nat.eqb r k
                       | None => false
                       end
                   | _ => false
                   end) (seq 0 1000) = true) by (vm_compute; reflexivity).
  rewrite forallb_forall in Hall.
  assert (Hin : In n (seq 0 1000)) by (apply in_seq; lia).
  specialize (Hall n Hin).
  destruct (padStart 3 (toString n)) as [|c1 [|c2 [|c3 [|c4 rest]]]]; try discriminate.
  exists c1, c2, c3. split; trivial.
  destruct (readNat (String c1 (String c2 (String c3 EmptyString)))) as [r|];
    [| discriminate].
  apply Nat.eqb_eq in Hall. now subst.
Qed.

(** X16: for the fields of a date (hours below 24, minutes and seconds below
    60, milliseconds below 1000) the time stamp of [log] always has the 12
    characters [hh:mm:ss.mmm]: the separators stand at positions 2, 5 and 8,
    and the digits between them read back as the four fields. *)
Theorem log_ts_fixed_width (hours minutes seconds milliseconds : nat) :
  (hours < 24)%nat -> (minutes < 60)%nat -> (seconds < 60)%nat ->
  (milliseconds < 1000)%nat ->
  let ts := log_ts hours minutes seconds milliseconds in
  String.length ts = 12%nat
  /\ String.get 2 ts = Some ":"%char
  /\ String.get 5 ts = Some ":"%char
  /\ String.get 8 ts = Some "."%char
  /\ readNat (String.substring 0 2 ts) = Some hours
  /\ readNat (String.substring 3 2 ts) = Some minutes
  /\ readNat (String.substring 6 2 ts) = Some seconds
  /\ readNat (String.substring 9 3 ts) = Some milliseconds.
Proof.
  intros Hh Hm Hs Hms ts. unfold ts, log_ts.
  destruct (padded_two hours) as (h1 & h2 & -> & Rh); [lia |].
  destruct (padded_two minutes) as (m1 & m2 & -> & Rm); [lia |].
  destruct (padded_two seconds) as (s1 & s2 & -> & Rs); [lia |].
  destruct (padded_three milliseconds) as (x1 & x2 & x3 & -> & Rx); [lia |].
  cbn [append String.length String.get String.substring].
  repeat split; assumption || reflexivity.
Qed.

End TimeStamp.

(** * The claims on concrete inputs *)

#[local] Existing Instance sampleCollaborators.



(** C2, counterexample: a single-pose output whose only score, 0.1, fails
    the filter gives a pose with no keypoint whose boxes are
    [(Infinity, Infinity, -Infinity, -Infinity)]. *)
Lemma zero_keypoints_box_is_infinite :
  map (fun b => (length (keypointsOf
                           (snd (predict (singleFrame [0.1]) sampleConfig (initial sampleModel)))
                           b),
                 BodyResult.box b, BodyResult.boxRaw b))
      (bodies (fst (predict (singleFrame [0.1]) sampleConfig (initial sampleModel))))
  = [(0%nat, (PInf, PInf, NInf, NInf), (PInf, PInf, NInf, NInf))].
Proof. vm_compute. reflexivity. Qed.

Lemma zero_keypoints_box_witness :
  length (fst (decode (SinglePose [sampleRow 0.1]) sampleConfig sampleImage unitBox
                      (initial sampleModel))) = 1%nat
  /\ Forall (fun b =>
               keypointsOf (snd (decode (SinglePose [sampleRow 0.1]) sampleConfig sampleImage
                                        unitBox (initial sampleModel))) b = []
               /\ BodyResult.box b = emptyBox /\ BodyResult.boxRaw b = emptyBox)
            (fst (decode (SinglePose [sampleRow 0.1]) sampleConfig sampleImage unitBox
                         (initial sampleModel))).
Proof.
  split; [reflexivity |].
  apply Forall_forall. intros b Hb.
  assert (Hk : keypointsOf (snd (decode (SinglePose [sampleRow 0.1]) sampleConfig sampleImage
                                        unitBox (initial sampleModel))) b = []).
  { destruct Hb as [<- | []]. reflexivity. }
  split; [exact Hk |].
  exact (zero_keypoints_box (SinglePose [sampleRow 0.1]) sampleConfig sampleImage unitBox
                            (initial sampleModel) b Hb Hk).
Defined.

(** C3, counterexample: with threshold 0.2 a raw score of 0.204 passes the
    filter and is stored as 0.2, which does not exceed the threshold. *)
Lemma stored_score_not_above_threshold :
  map (fun b =>
         map (fun kp => ngt (BodyKeypoint.score kp) (minConfidence (body sampleConfig)))
             (keypointsOf (snd (predict (singleFrame [0.204]) sampleConfig
                                        (initial sampleModel))) b))
      (bodies (fst (predict (singleFrame [0.204]) sampleConfig (initial sampleModel))))
  = [[false]].
Proof. vm_compute. reflexivity. Qed.

Lemma keypoints_filtered_on_raw_score_witness :
  map (fun b => length (keypointsOf (snd (predict (singleFrame [0.204]) sampleConfig
                                                  (initial sampleModel))) b))
      (bodies (fst (predict (singleFrame [0.204]) sampleConfig (initial sampleModel))))
  = [1%nat]
  /\ Forall (fun b =>
       Forall (fun kp =>
                 exists region raw,
                   In raw (rawScores (infer (singleFrame [0.204]) region))
                   /\ ngt raw (minConfidence (body sampleConfig)) = true
                   /\ BodyKeypoint.score kp = round2 raw
                   /\ ngt (BodyKeypoint.score kp + Fin (1 # 200))%num
                          (minConfidence (body sampleConfig)) = true)
              (keypointsOf (snd (predict (singleFrame [0.204]) sampleConfig
                                         (initial sampleModel))) b))
       (bodies (fst (predict (singleFrame [0.204]) sampleConfig (initial sampleModel)))).
Proof.
  split; [vm_compute; reflexivity |].
  apply Forall_forall. intros b Hb. apply Forall_forall. intros kp Hkp.
  exact (keypoints_filtered_on_raw_score (singleFrame [0.204]) sampleConfig
                                         (initial sampleModel) b kp Hb Hkp).
Defined.

(** C4, the failing input: a single-pose result returned for one frame and
    read again after the next frame's decode.  Its keypoints were the two
    kept from scores 0.3 and 0.5; after the next frame they are the one
    keypoint of that frame, while its stored score is still 0.5. *)
Theorem shared_keypoints_overwritten :
  let r1 := predict (singleFrame [0.1; 0.3; 0.5]) eagerConfig (initial sampleModel) in
  let r2 := predict (singleFrame [0.9]) eagerConfig (snd r1) in
  map (fun b => length (keypointsOf (snd r1) b)) (bodies (fst r1)) = [2%nat]
  /\ map (fun b => length (keypointsOf (snd r2) b)) (bodies (fst r1)) = [1%nat]
  /\ map (fun b => map (fun kp => num_eqb (BodyKeypoint.score kp) (Fin 0.9))
                       (keypointsOf (snd r2) b)) (bodies (fst r1)) = [[true]]
  /\ map (fun b => num_eqb (BodyResult.score b) (Fin 0.5)) (bodies (fst r1)) = [true].
Proof. vm_compute. auto. Qed.


Lemma full_frame_rule_witness :
  modelReady (initial sampleModel) = true
  /\ modelReady (snd (predict multiFrame everyThirdConfig (initial sampleModel))) = true
  /\ skipped (snd (predict multiFrame everyThirdConfig (initial sampleModel))) = 0%Z
  /\ Z.of_nat (length [multiFrame; multiFrame]) = skipFrames (body everyThirdConfig)
  /\ (skipFrames (body everyThirdConfig) < 2 ^ 53)%Z
  /\ Forall (fun o => ranFullFrame o = false)
            (fst (run everyThirdConfig [multiFrame; multiFrame]
                      (snd (predict multiFrame everyThirdConfig (initial sampleModel)))))
  /\ skipped (snd (run everyThirdConfig [multiFrame; multiFrame]
                       (snd (predict multiFrame everyThirdConfig (initial sampleModel)))))
     = 2%Z.
Proof.
  assert (h1 : modelReady (initial sampleModel) = true) by reflexivity.
  assert (h2 : modelReady (snd (predict multiFrame everyThirdConfig (initial sampleModel)))
               = true) by (vm_compute; reflexivity).
  assert (h3 : skipped (snd (predict multiFrame everyThirdConfig (initial sampleModel)))
               = 0%Z) by (vm_compute; reflexivity).
  assert (h4 : Z.of_nat (length [multiFrame; multiFrame])
               = skipFrames (body everyThirdConfig)) by reflexivity.
  assert (h5 : (skipFrames (body everyThirdConfig) < 2 ^ 53)%Z) by reflexivity.
  pose proof (full_frame_rule everyThirdConfig (initial sampleModel) multiFrame
                (snd (predict multiFrame everyThirdConfig (initial sampleModel)))
                [multiFrame; multiFrame] multiFrame h1 h2 h3 h4 h5) as H.
  cbv zeta in H. destruct H as (_ & _ & _ & Hquiet & Hcount & _).
  repeat (split; [assumption |]). exact Hcount.
Defined.

(** C8, counterexample: with tracking enabled, a returned pose with exactly
    10 keypoints leaves no cached region. *)
Lemma ten_keypoints_not_cached :
  skipFrame sampleConfig = true
  /\ map (fun b => length (keypointsOf
                             (snd (predict (singleFrame (repeat 0.5 10)) sampleConfig
                                           (initial sampleModel))) b))
         (bodies (fst (predict (singleFrame (repeat 0.5 10)) sampleConfig
                               (initial sampleModel))))
     = [10%nat]
  /\ length (cachedBoxes (snd (predict (singleFrame (repeat 0.5 10)) sampleConfig
                                       (initial sampleModel)))) = 0%nat.
Proof. vm_compute. auto. Qed.

Lemma cache_after_frame_witness :
  modelReady (initial sampleModel) = true
  /\ length (cachedBoxes (snd (predict (singleFrame (repeat 0.5 11)) sampleConfig
                                       (initial sampleModel)))) = 1%nat.
Proof.
  assert (h1 : modelReady (initial sampleModel) = true) by reflexivity.
  split; [exact h1 |].
  pose proof (cache_after_frame (singleFrame (repeat 0.5 11)) sampleConfig
                                (initial sampleModel) h1) as H.
  cbv zeta in H. destruct H as [_ H]. rewrite H. vm_compute. reflexivity.
Defined.


(** C10, counterexample: on the first frame after load no inference runs
    when the threshold is 2^53, the value the counter reaches, nor when the
    maximum of detections is 0. *)
Lemma first_frame_may_skip_full :
  predict multiFrame neverConfig (initial sampleModel)
  = ({| bodies := []; calls := [] |},
     set_skipped 9007199254740992 (initial sampleModel))
  /\ predict multiFrame zeroConfig (initial sampleModel)
     = ({| bodies := []; calls := [] |},
        set_skipped 9007199254740992 (initial sampleModel)).
Proof. vm_compute. auto. Qed.

Lemma first_frame_runs_full_witness :
  modelReady (initial sampleModel) = true
  /\ (1 <= maxDetected (body sampleConfig))%nat
  /\ (skipFrames (body sampleConfig) <= MAX_SAFE_INTEGER)%Z
  /\ ranFullFrame (fst (predict multiFrame sampleConfig (initial sampleModel))) = true.
Proof.
  assert (h1 : modelReady (initial sampleModel) = true) by reflexivity.
  assert (h2 : (1 <= maxDetected (body sampleConfig))%nat) by (simpl; lia).
  assert (h3 : (skipFrames (body sampleConfig) <= MAX_SAFE_INTEGER)%Z)
    by (unfold MAX_SAFE_INTEGER; simpl; lia).
  repeat (split; [assumption |]).
  exact (first_frame_runs_full sampleModel multiFrame sampleConfig h1 h2 h3).
Defined.

(** * The further properties on concrete inputs *)

Lemma predict_without_model_witness :
  modelReady noModel = false
  /\ run sampleConfig [multiFrame; multiFrame] noModel
     = ([ {| bodies := []; calls := [] |}; {| bodies := []; calls := [] |} ], noModel).
Proof.
  assert (h : modelReady noModel = false) by reflexivity.
  split; [exact h |].
  exact (predict_without_model sampleConfig [multiFrame; multiFrame] noModel h).
Defined.

Lemma createBox_tight_witness :
  samplePoints <> []
  /\ spans (map (fun a => fst (BodyKeypoint.position a)) samplePoints)
           (Fin 160) (Fin 320 - Fin 160)%num.
Proof.
  assert (h1 : samplePoints <> []) by discriminate.
  assert (h2 : Forall (fun a => fst (BodyKeypoint.position a) <> NaN
                                /\ snd (BodyKeypoint.position a) <> NaN
                                /\ fst (BodyKeypoint.positionRaw a) <> NaN
                                /\ snd (BodyKeypoint.positionRaw a) <> NaN) samplePoints).
  { repeat constructor; discriminate. }
  split; [exact h1 |].
  exact (proj1 (createBox_tight samplePoints h1 h2)).
Defined.

Lemma createBox_NaN_witness :
  In poisonedPoint (poisonedPoint :: samplePoints)
  /\ box0 (fst (createBox (poisonedPoint :: samplePoints))) = NaN
  /\ box2 (fst (createBox (poisonedPoint :: samplePoints))) = NaN.
Proof.
  assert (h : In poisonedPoint (poisonedPoint :: samplePoints)) by (left; reflexivity).
  split; [exact h |].
  exact (proj1 (createBox_NaN (poisonedPoint :: samplePoints) poisonedPoint h) eq_refl).
Defined.

Lemma annotations_list_every_chain_witness :
  length (fst (decode (SinglePose (map sampleRow (repeat 0.5 10))) sampleConfig sampleImage
                      unitBox (initial sampleModel))) = 1%nat
  /\ Forall (fun b => map fst (BodyResult.annotations b) = map fst coords_connected)
            (fst (decode (SinglePose (map sampleRow (repeat 0.5 10))) sampleConfig
                         sampleImage unitBox (initial sampleModel))).
Proof.
  split; [reflexivity |].
  apply Forall_forall. intros b Hb.
  exact (proj1 (annotations_list_every_chain
                  (SinglePose (map sampleRow (repeat 0.5 10))) sampleConfig sampleImage
                  unitBox (initial sampleModel) b Hb)).
Defined.

Lemma annotation_segments_join_keypoints_witness :
  map (fun b => map (fun entry => length (snd entry)) (BodyResult.annotations b))
      (fst (decode (SinglePose (map sampleRow (repeat 0.5 10))) sampleConfig sampleImage
                   unitBox (initial sampleModel)))
  = [[2; 1]]%nat
  /\ Forall (fun b =>
       Forall (fun entry =>
         Forall (fun seg =>
                   exists indexes,
                     In (fst entry, indexes) coords_connected
                     /\ joins sampleConfig
                          (keypointsOf
                             (snd (decode (SinglePose (map sampleRow (repeat 0.5 10)))
                                          sampleConfig sampleImage unitBox
                                          (initial sampleModel))) b)
                          indexes seg)
                (snd entry))
         (BodyResult.annotations b))
       (fst (decode (SinglePose (map sampleRow (repeat 0.5 10))) sampleConfig sampleImage
                    unitBox (initial sampleModel))).
Proof.
  split; [vm_compute; reflexivity |].
  apply Forall_forall. intros b Hb.
  apply Forall_forall. intros [name segs] Hentry.
  apply Forall_forall. intros seg Hseg.
  exact (annotation_segments_join_keypoints
           (SinglePose (map sampleRow (repeat 0.5 10))) sampleConfig sampleImage unitBox
           (initial sampleModel) b name segs seg Hb Hentry Hseg).
Defined.

Lemma multi_pose_keypoints_are_copied_witness :
  length (fst (decode (MultiPose [sampleSlot 0.9; sampleSlot 0.4]) sampleConfig sampleImage
                      unitBox (initial sampleModel))) = 2%nat
  /\ Forall (fun b => keypointsOf (initial sampleModel) b = keypointsOf noModel b)
            (fst (decode (MultiPose [sampleSlot 0.9; sampleSlot 0.4]) sampleConfig
                         sampleImage unitBox (initial sampleModel))).
Proof.
  split; [vm_compute; reflexivity |].
  apply Forall_forall. intros b Hb.
  exact (multi_pose_keypoints_are_copied [sampleSlot 0.9; sampleSlot 0.4] sampleConfig
           sampleImage unitBox (initial sampleModel) b (initial sampleModel) noModel Hb).
Defined.

Lemma multi_pose_score_above_threshold_witness :
  length (fst (decode (MultiPose [sampleSlot 0.9; sampleSlot 0.4]) sampleConfig sampleImage
                      unitBox (initial sampleModel))) = 2%nat
  /\ Forall (fun b => ngt (BodyResult.score b) (minConfidence (body sampleConfig)) = true)
            (fst (decode (MultiPose [sampleSlot 0.9; sampleSlot 0.4]) sampleConfig
                         sampleImage unitBox (initial sampleModel))).
Proof.
  split; [vm_compute; reflexivity |].
  apply Forall_forall. intros b Hb.
  exact (multi_pose_score_above_threshold [sampleSlot 0.9; sampleSlot 0.4] sampleConfig
           sampleImage unitBox (initial sampleModel) b Hb).
Defined.

Lemma multi_pose_nothing_passes_witness :
  Forall (fun kpt => ngt (totalScore kpt) (minConfidence (body sampleConfig)) = false)
         [sampleSlot 0.1; sampleSlot 0.2]
  /\ decode (MultiPose [sampleSlot 0.1; sampleSlot 0.2]) sampleConfig sampleImage unitBox
            trackedState
     = ([], trackedState).
Proof.
  assert (h : Forall (fun kpt => ngt (totalScore kpt) (minConfidence (body sampleConfig))
                                 = false)
                     [sampleSlot 0.1; sampleSlot 0.2]) by (repeat constructor).
  split; [exact h |].
  exact (multi_pose_nothing_passes [sampleSlot 0.1; sampleSlot 0.2] sampleConfig sampleImage
           unitBox trackedState h).
Defined.

Lemma frame_composition_witness :
  modelReady trackedState = true
  /\ calls (fst (predict multiFrame sampleConfig trackedState))
     = [Crop unitBox; Crop unitBox; FullFrame].
Proof.
  assert (h : modelReady trackedState = true) by reflexivity.
  split; [exact h |].
  pose proof (frame_composition multiFrame sampleConfig trackedState h) as H.
  cbv zeta in H. destruct H as [H _]. rewrite H. vm_compute. reflexivity.
Defined.

Lemma single_pose_results_share_keypoints_witness :
  singleModel (singleFrame [0.3; 0.5])
  /\ length (bodies (fst (predict (singleFrame [0.3; 0.5]) sampleConfig trackedState)))
     = 2%nat
  /\ Forall (fun b =>
       Forall (fun b' =>
                 keypointsOf (snd (predict (singleFrame [0.3; 0.5]) sampleConfig
                                           trackedState)) b
                 = keypointsOf (snd (predict (singleFrame [0.3; 0.5]) sampleConfig
                                             trackedState)) b')
              (bodies (fst (predict (singleFrame [0.3; 0.5]) sampleConfig trackedState))))
       (bodies (fst (predict (singleFrame [0.3; 0.5]) sampleConfig trackedState))).
Proof.
  assert (h : singleModel (singleFrame [0.3; 0.5])).
  { intros region. eexists. reflexivity. }
  split; [exact h |]. split; [vm_compute; reflexivity |].
  apply Forall_forall. intros b Hb. apply Forall_forall. intros b' Hb'.
  exact (proj2 (single_pose_results_share_keypoints (singleFrame [0.3; 0.5]) sampleConfig
                  trackedState b b' h Hb Hb')).
Defined.

Lemma keypoints_follow_part_slots_witness :
  length (fst (decode (MultiPose [sampleSlot 0.9]) sampleConfig sampleImage unitBox
                      (initial sampleModel))) = 1%nat
  /\ Forall (fun b =>
               (length (keypointsOf
                          (snd (decode (MultiPose [sampleSlot 0.9]) sampleConfig sampleImage
                                       unitBox (initial sampleModel))) b) <= 17)%nat)
            (fst (decode (MultiPose [sampleSlot 0.9]) sampleConfig sampleImage unitBox
                         (initial sampleModel))).
Proof.
  split; [vm_compute; reflexivity |].
  apply Forall_forall. intros b Hb.
  exact (proj1 (keypoints_follow_part_slots (MultiPose [sampleSlot 0.9]) sampleConfig
                  sampleImage unitBox (initial sampleModel) b Hb)).
Defined.


Lemma log_ts_fixed_width_witness :
  (9 < 24)%nat /\ (5 < 60)%nat /\ (0 < 60)%nat /\ (42 < 1000)%nat
  /\ String.length (log_ts 9 5 0 42) = 12%nat
  /\ readNat (String.substring 9 3 (log_ts 9 5 0 42)) = Some 42%nat.
Proof.
  assert (h1 : (9 < 24)%nat) by lia.
  assert (h2 : (5 < 60)%nat) by lia.
  assert (h3 : (0 < 60)%nat) by lia.
  assert (h4 : (42 < 1000)%nat) by lia.
  repeat (split; [assumption |]).
  pose proof (log_ts_fixed_width 9 5 0 42 h1 h2 h3 h4) as H.
  cbv zeta in H. destruct H as (Hlen & _ & _ & _ & _ & _ & _ & Hms).
  split; assumption.
Defined.
